(** * yt-products: the GPU video assembly core, embedded and verified

    A shallow embedding of the three modules that make up the video
    assembly core of the repository:

    - [modules/caption_generator.py]: word chunking of transcript segments
      and the ASS timestamp formatter;
    - [modules/video_overlay.py]: the resolution of the overlay time window;
    - [modules/video_processor.py]: the duration matcher
      ([loop_video_to_match_audio]) and the job scheduler
      ([process_videos_parallel], [process_videos_smart]), the encoder
      check, the scaling step and the time label;
    - [vidprocessor.py]: the two colour helpers of the subtitle step.

    Conventions of the embedding.

    - A Python [float] is modelled by the rational number it denotes. The
      division that gives the number of copies of the video rounds as the
      floats do ([Py.truediv]); the other float operations are exact in
      the model, which is what Python computes where the exact result is a
      float again (the floor division and the remainder of a time from 0
      to [2^53] by 60 and by 3600) and differs from it by the rounding of
      the operation elsewhere. Division by zero raises, as in Python.
    - Code that talks to the outside (ffmpeg, ffprobe, the file system, the
      clock, the thread pool) runs in a state-and-exception monad over an
      explicit [World]; what the outside answers is given by a [Host].
    - Logging is not modelled. *)

From Stdlib Require Import ZArith QArith Qround Qabs Qpower Lia Lqa List Ascii String DecimalString.
From stdpp Require Import gmap strings.

Open Scope Z_scope.

(* [set_solver] clears hypotheses by name, some of them already gone. *)
#[local] Set Warnings "-clear-no-such-hyp".

(* ================================================================== *)
(** * Python values: numbers and strings                                *)
(* ================================================================== *)

Module Py.

(** ** Numbers *)

(** [int(x)] of a float: truncation towards zero. *)
Definition int_of_float (x : Q) : Z := Z.quot (Qnum x) (Zpos (Qden x)).

(** [x // y] on floats, for a divisor that is not zero: the exact floor of
    the quotient, which is what Python computes for a dividend from 0 to
    [2^53] and the divisors 60 and 3600 of this code; beyond, and for
    negative dividends, Python's result is rounded. *)
Definition floordiv (x y : Q) : Q := inject_Z (Qfloor (x / y)).

(** [x % y] on floats, for a divisor that is not zero: the exact
    remainder, with the sign of the divisor. For a dividend that is not
    negative this is what Python computes; for a negative one Python
    rounds the sum of the remainder and the divisor. *)
Definition mod_ (x y : Q) : Q := (x - y * floordiv x y)%Q.

(** [min(a, b)]: the first argument unless the second is smaller. *)
Definition min_Q (a b : Q) : Q := if Qlt_le_dec b a then b else a.

Definition min_Z (a b : Z) : Z := if b <? a then b else a.

(** Rounding to the nearest integer, ties to even: the rounding that
    fixed-point formatting ([.2f]) applies to the digits it drops. *)
Definition round_half_even (x : Q) : Z :=
  let f := Qfloor x in
  match (x - inject_Z f ?= 1 # 2)%Q with
  | Lt => f
  | Gt => f + 1
  | Eq => if Z.even f then f else f + 1
  end.

(** A float literal of the source text: the binary64 number nearest to the
    decimal written (53 bits of mantissa, ties to even; the normal range). *)
Definition float_lit (q : Q) : Q :=
  if Qeq_bool q 0 then 0%Q
  else
    let a := Qabs q in
    let k0 := Z.log2 (Qnum a) - Z.log2 (Zpos (Qden a)) in
    let k := if Qlt_le_dec a (2 ^ k0) then k0 - 1 else k0 in
    let ulp := (2 ^ (k - 52))%Q in
    let m := inject_Z (round_half_even (a / ulp)) in
    if Qlt_le_dec q 0 then (- (m * ulp))%Q else (m * ulp)%Q.

(** The exponent of the leading bit of [a > 0]: the [k] with
    [2^k <= a < 2^(k+1)]. *)
Definition exponent (a : Q) : Z :=
  let k0 := Z.log2 (Qnum a) - Z.log2 (Zpos (Qden a)) in
  if Qlt_le_dec a (2 ^ k0) then k0 - 1 else k0.

(** The unit in the last place of the binary64 numbers around [a > 0]: 53
    bits of mantissa, down to the subnormal numbers. *)
Definition ulp (a : Q) : Q := (2 ^ Z.max (exponent a - 52) (-1074))%Q.

(** The result of a float operation whose exact value is [q]: the
    binary64 number nearest to [q], ties to even. No overflow is applied
    here: a result of magnitude [2^1024] or more stands for an infinity,
    see [is_finite]. *)
Definition fround (q : Q) : Q :=
  if Qeq_bool q 0 then 0%Q
  else
    let a := Qabs q in
    let m := inject_Z (round_half_even (a / ulp a)) in
    if Qlt_le_dec q 0 then (- (m * ulp a))%Q else (m * ulp a)%Q.

Definition is_finite (x : Q) : bool :=
  if Qlt_le_dec (Qabs x) (2 ^ 1024) then true else false.

(** [x / y] on floats, for a divisor that is not zero: the quotient,
    rounded. *)
Definition truediv (x y : Q) : Q := fround (x / y).

(** ** Strings *)

(** [str(n)] of an int. *)
Definition str_int (n : Z) : string := NilZero.string_of_int (Z.to_int n).

Fixpoint zeros (n : nat) : string :=
  match n with
  | O => EmptyString
  | S n' => String "0"%char (zeros n')
  end.

(** Sign-aware zero padding to a minimal width: the [0] flag of the format
    mini-language. *)
Definition zero_pad (width : nat) (negative : bool) (body : string) : string :=
  let sign := if negative then "-"%string else EmptyString in
  (sign ++ zeros (width - String.length sign - String.length body) ++ body)%string.

(** [f"{n:02d}"]. *)
Definition format_02d (n : Z) : string :=
  zero_pad 2 (n <? 0) (str_int (Z.abs n)).

(** [f"{x:05.2f}"]: two decimals, rounded half to even, zero padded to
    five characters. *)
Definition format_05_2f (x : Q) : string :=
  let negative := if Qlt_le_dec x 0 then true else false in
  let h := round_half_even (Qabs x * 100) in
  let frac := h mod 100 in
  zero_pad 5 negative
    (str_int (h / 100) ++ "." ++ zeros (2 - String.length (str_int frac)) ++ str_int frac)%string.

(** [c.isspace()] on the ASCII range. *)
Definition isspace (c : ascii) : bool :=
  let n := nat_of_ascii c in
  ((9 <=? n)%nat && (n <=? 13)%nat) || ((28 <=? n)%nat && (n <=? 32)%nat).

Definition is_empty (s : string) : bool :=
  match s with EmptyString => true | _ => false end.

(** [s.split()]: the maximal runs of characters that are not whitespace.
    [cur] is the word being read. *)
Fixpoint split_go (cur s : string) : list string :=
  match s with
  | EmptyString => if is_empty cur then [] else [cur]
  | String c s' =>
      if isspace c
      then (if is_empty cur then split_go EmptyString s'
            else cur :: split_go EmptyString s')
      else split_go (cur ++ String c EmptyString)%string s'
  end.

Definition split (s : string) : list string := split_go EmptyString s.

(** [sep.join(words)]. *)
Fixpoint join (sep : string) (words : list string) : string :=
  match words with
  | [] => EmptyString
  | [w] => w
  | w :: ws => (w ++ sep ++ join sep ws)%string
  end.

Fixpoint lstrip (s : string) : string :=
  match s with
  | EmptyString => EmptyString
  | String c s' => if isspace c then lstrip s' else s
  end.

Fixpoint rstrip (s : string) : string :=
  match s with
  | EmptyString => EmptyString
  | String c s' =>
      let r := rstrip s' in
      if isspace c && is_empty r then EmptyString else String c r
  end.

(** [s.strip()]. *)
Definition strip (s : string) : string := rstrip (lstrip s).

(** [s.split(sep)] for a separator of one character. *)
Fixpoint split_on_go (sep : ascii) (cur s : string) : list string :=
  match s with
  | EmptyString => [cur]
  | String c s' =>
      if Ascii.eqb c sep then cur :: split_on_go sep EmptyString s'
      else split_on_go sep (cur ++ String c EmptyString)%string s'
  end.

Definition split_on (sep : ascii) (s : string) : list string :=
  split_on_go sep EmptyString s.

(** [needle in hay] on strings. *)
Fixpoint contains (needle hay : string) : bool :=
  String.prefix needle hay ||
  match hay with
  | EmptyString => false
  | String _ hay' => contains needle hay'
  end.

End Py.

(* ================================================================== *)
(** * modules/caption_generator.py                                      *)
(* ================================================================== *)

Module caption_generator.

(** A segment as the transcription model yields it. *)
Record Segment := { seg_start : Q; seg_end : Q; seg_text : string }.

(** A chunk: one entry of [chunked_segments]. *)
Record Chunk := { start : Q; end_ : Q; text : string }.

(** The loop of [chunk_text_by_words]: [current] is [current_chunk],
    [chunks] the chunks closed so far. *)
Fixpoint chunk_loop (max_words : Z) (words current chunks : list string)
  : list string :=
  match words with
  | [] => if bool_decide (current = []) then chunks
          else chunks ++ [Py.join " " current]
  | word :: rest =>
      let current := current ++ [word] in
      if Z.of_nat (length current) >=? max_words
      then chunk_loop max_words rest [] (chunks ++ [Py.join " " current])
      else chunk_loop max_words rest current chunks
  end.

Definition chunk_text_by_words (text : string) (max_words : Z) : list string :=
  chunk_loop max_words (Py.split text) [] [].

(** The inner loop of [transcribe_audio], [for i, chunk in enumerate(chunks)]:
    [i] is the index of the first chunk of [chunks]. *)
Fixpoint emit_chunks (seg_start chunk_duration : Q) (i : nat) (chunks : list string)
  : list Chunk :=
  match chunks with
  | [] => []
  | chunk :: rest =>
      let chunk_start := (seg_start + inject_Z (Z.of_nat i) * chunk_duration)%Q in
      let chunk_end := (chunk_start + chunk_duration)%Q in
      {| start := chunk_start; end_ := chunk_end; text := chunk |}
        :: emit_chunks seg_start chunk_duration (S i) rest
  end.

(** The body of the outer loop of [transcribe_audio]: the chunks one
    segment contributes. *)
Definition segment_chunks (segment : Segment) : list Chunk :=
  let text := Py.strip (seg_text segment) in
  let chunks := chunk_text_by_words text 5 in
  if (length chunks =? 0)%nat then []
  else
    let segment_duration := (seg_end segment - seg_start segment)%Q in
    let chunk_duration := (segment_duration / inject_Z (Z.of_nat (length chunks)))%Q in
    emit_chunks (seg_start segment) chunk_duration 0 chunks.

(** What [transcribe_audio] returns. *)
Record Transcript :=
  { full_text : string; segments : list Chunk; language : string }.

(** [transcribe_audio], from the segments and the language the model
    returned for the audio file. *)
Definition transcribe_audio (model_segments : list Segment) (info_language : string)
  : Transcript :=
  {| full_text := Py.join " " (map (fun s => Py.strip (seg_text s)) model_segments);
     segments := flat_map segment_chunks model_segments;
     language := info_language |}.

(** [format_timestamp_ass]. *)
Definition format_timestamp_ass (seconds : Q) : string :=
  let hours := Py.int_of_float (Py.floordiv seconds 3600) in
  let minutes := Py.int_of_float (Py.floordiv (Py.mod_ seconds 3600) 60) in
  let secs := Py.mod_ seconds 60 in
  (Py.str_int hours ++ ":" ++ Py.format_02d minutes ++ ":" ++ Py.format_05_2f secs)%string.

End caption_generator.

(* ================================================================== *)
(** * The outside world: processes, files, clock                        *)
(* ================================================================== *)

Module Sys.

(** ** Exceptions *)

Inductive exn :=
| RuntimeError (msg : string)
| ZeroDivisionError
| ValueError (msg : string)
| TimeoutExpired (timeout : Z)
| FileNotFoundError (path : string)
| OverflowError (msg : string).

(** [str(e)]. For [TimeoutExpired] the command line is left out of the
    message. *)
Definition str_exn (e : exn) : string :=
  match e with
  | RuntimeError msg => msg
  | ZeroDivisionError => "float division by zero"
  | ValueError msg => msg
  | TimeoutExpired t => "Command timed out after " ++ Py.str_int t ++ " seconds"
  | FileNotFoundError path => "[Errno 2] No such file or directory: '" ++ path ++ "'"
  | OverflowError msg => msg
  end%string.

Inductive Result (A : Type) :=
| Ok (a : A)
| Raise (e : exn).
Arguments Ok {A} a.
Arguments Raise {A} e.

(** ** Commands *)

(** One entry of the [quality_settings] tables. *)
Record Quality :=
  { gpu_preset : string; cq : string; multipass : string;
    spatial_aq : string; temporal_aq : string; audio_bitrate : string }.

(** The parameters of the overlay command line. *)
Record OverlayArgs :=
  { ov_main : string; ov_overlay : string; ov_output : string;
    ov_start : Q; ov_end : Q;
    ov_position : string; ov_size_percent : Q;
    ov_remove_green : bool; ov_similarity : Q; ov_blend : Q;
    ov_keep_audio : bool; ov_gpu_preset : string; ov_cq : string }.

(** The command lines the core runs. *)
Inductive Cmd :=
| FfmpegEncoders
    (* ffmpeg -hide_banner -encoders *)
| FfprobeDuration (path : string)
    (* ffprobe -v error -show_entries format=duration ... path *)
| FfprobeResolution (path : string)
    (* ffprobe -v error -select_streams v:0 -show_entries stream=width,height ... path *)
| FfmpegScale (input output : string) (q : Quality) (maximum : bool)
    (* ffmpeg -y -i input -vf scale=1920:1080:flags=lanczos ... -c:v h264_nvenc ... output *)
| FfmpegConcat (list_file output : string)
    (* ffmpeg -y -f concat -safe 0 -i list_file -c copy output *)
| FfmpegTrim (input : string) (t : Q) (output : string)
    (* ffmpeg -y -i input -t t -c copy output *)
| FfmpegCombine (video audio output : string) (q : Quality) (maximum : bool)
    (* ffmpeg -y -i video -i audio -map 0:v -map 1:a -c:v h264_nvenc ... -shortest output *)
| FfmpegOverlay (args : OverlayArgs).
    (* ffmpeg -y -i main -i overlay -filter_complex ... -c:v h264_nvenc ... output *)

(** The file a command writes when it succeeds. *)
Definition output_of (c : Cmd) : gset string :=
  match c with
  | FfmpegEncoders | FfprobeDuration _ | FfprobeResolution _ => ∅
  | FfmpegScale _ out _ _ | FfmpegConcat _ out | FfmpegTrim _ _ out
  | FfmpegCombine _ _ out _ _ => {[ out ]}
  | FfmpegOverlay a => {[ ov_output a ]}
  end.

(** [subprocess.CompletedProcess], output decoded. *)
Record Completed := { returncode : Z; stdout : string; stderr : string }.

(** How [subprocess.run] ends: the process exits, the timeout expires, or
    the program is not found. *)
Inductive Outcome :=
| Exited (cp : Completed)
| Expired
| NotFound (program : string).

(** ** World and host *)

Inductive Event :=
| Ran (c : Cmd)                                 (* subprocess.run *)
| Wrote (path : string) (lines : list string)   (* open(path, "w") and writes *)
| Unlinked (path : string)                      (* Path.unlink *)
| PoolCreated (max_workers : Z).                (* ThreadPoolExecutor(max_workers) *)

Record World :=
  { fs : gset string;       (* the files that exist *)
    clock : Q;              (* time.time() *)
    trace : list Event }.   (* what has been done so far, oldest first *)

(** What the machine answers. [spawn] gives the outcome of a command and
    the time it took; [float_of_string] and [int_of_string] are Python's
    [float()] and [int()] on strings, the first giving the float nearest to
    the number written; [resolve] is [Path.resolve];
    [completion_order] drives [as_completed]: each number picks, among the
    futures still pending, the one that completes next. *)
Record Host :=
  { spawn : Cmd -> World -> Outcome * Q;
    float_of_string : string -> option Q;
    int_of_string : string -> option Z;
    resolve : string -> string;
    completion_order : World -> list nat }.

(** ** The monad of effectful code *)

Definition M (A : Type) : Type := World -> Result A * World.

Definition ret {A} (a : A) : M A := fun w => (Ok a, w).

Definition raise {A} (e : exn) : M A := fun w => (Raise e, w).

Definition bind {A B} (m : M A) (k : A -> M B) : M B :=
  fun w => match m w with
           | (Ok a, w') => k a w'
           | (Raise e, w') => (Raise e, w')
           end.

(** [try: m except: handler]. *)
Definition try_except {A} (m : M A) (handler : exn -> M A) : M A :=
  fun w => match m w with
           | (Ok a, w') => (Ok a, w')
           | (Raise e, w') => handler e w'
           end.

Notation "x <- m ;; k" := (bind m (fun x => k))
  (at level 100, m at next level, right associativity).
Notation "m ;;; k" := (bind m (fun _ => k))
  (at level 100, right associativity).

Fixpoint mapM {A B} (f : A -> M B) (l : list A) : M (list B) :=
  match l with
  | [] => ret []
  | x :: l' => y <- f x ;; ys <- mapM f l' ;; ret (y :: ys)
  end.

Fixpoint foldM {A B} (f : B -> A -> M B) (acc : B) (l : list A) : M B :=
  match l with
  | [] => ret acc
  | x :: l' => acc' <- f acc x ;; foldM f acc' l'
  end.

(** ** Primitives *)

Definition time_time : M Q := fun w => (Ok (clock w), w).

Definition log_event (e : Event) (w : World) : World :=
  {| fs := fs w; clock := clock w; trace := trace w ++ [e] |}.

(** [subprocess.run(cmd, timeout=timeout)]. A command that exits with
    code 0 has written its output file. *)
Definition subprocess_run (h : Host) (c : Cmd) (timeout : Z) : M Completed :=
  fun w =>
    let '(o, dt) := spawn h c w in
    let w1 := {| fs := fs w; clock := (clock w + dt)%Q; trace := trace w ++ [Ran c] |} in
    match o with
    | Exited cp =>
        (Ok cp,
         if returncode cp =? 0
         then {| fs := fs w1 ∪ output_of c; clock := clock w1; trace := trace w1 |}
         else w1)
    | Expired => (Raise (TimeoutExpired timeout), w1)
    | NotFound program => (Raise (FileNotFoundError program), w1)
    end.

(** [with open(path, "w") as f: f.write(line) ...]. The directory is taken
    to exist and to be writable. *)
Definition write_lines (path : string) (lines : list string) : M unit :=
  fun w => (Ok tt, {| fs := fs w ∪ {[ path ]}; clock := clock w;
                      trace := trace w ++ [Wrote path lines] |}).

(** [Path(path).unlink()]. *)
Definition unlink (path : string) : M unit :=
  fun w => if bool_decide (path ∈ fs w)
           then (Ok tt, {| fs := fs w ∖ {[ path ]}; clock := clock w;
                           trace := trace w ++ [Unlinked path] |})
           else (Raise (FileNotFoundError path), w).

(** [ThreadPoolExecutor(max_workers=n)]. *)
Definition ThreadPoolExecutor (n : Z) : M unit :=
  fun w => if n <=? 0
           then (Raise (ValueError "max_workers must be greater than 0"), w)
           else (Ok tt, log_event (PoolCreated n) w).

(** [executor.submit(job)]: the job runs, what it returns or raises is
    kept in the future. The workers are modelled as running one after the
    other, in the order of submission: what workers do to each other when
    they work at the same time on files of the same name is outside this
    model. *)
Definition submit {A} (job : M A) : M (Result A) :=
  fun w => let '(r, w') := job w in (Ok r, w').

(** [future.result()]. *)
Definition future_result {A} (future : Result A) : M A :=
  fun w => (future, w).

(** The order in which [as_completed] yields the futures. *)
Fixpoint take_in_order {A} (order : list nat) (pending : list A) : list A :=
  match order with
  | [] => pending
  | i :: order' =>
      match pending !! i with
      | Some x => x :: take_in_order order' (delete i pending)
      | None => take_in_order order' pending
      end
  end.

Definition as_completed {A} (h : Host) (futures : list A) : M (list A) :=
  fun w => (Ok (take_in_order (completion_order h w) futures), w).

(** ** Properties of computations *)

(** [preserves R m]: every run of [m] takes a world to an [R]-related
    one, whether it returns or raises. *)
Definition preserves (R : relation World) {A} (m : M A) : Prop :=
  forall w r w', m w = (r, w') -> R w w'.

(** [raises_only P m]: every exception that leaves [m] satisfies [P]. *)
Definition raises_only (P : exn -> Prop) {A} (m : M A) : Prop :=
  forall w e w', m w = (Raise e, w') -> P e.

(** [returns m]: [m] never raises. *)
Definition returns {A} (m : M A) : Prop :=
  forall w, exists a w', m w = (Ok a, w').

(** ** pathlib, on normalised POSIX paths *)

(** The path split at its last slash. *)
Fixpoint rsplit_slash (p : string) : option (string * string) :=
  match p with
  | EmptyString => None
  | String c p' =>
      match rsplit_slash p' with
      | Some (d, n) => Some (String c d, n)
      | None => if Ascii.eqb c "/" then Some (EmptyString, p') else None
      end
  end.

(** [Path(p).name]. *)
Definition path_name (p : string) : string :=
  match rsplit_slash p with
  | Some (_, n) => n
  | None => p
  end.

(** [Path(p).parent]. *)
Definition path_parent (p : string) : string :=
  match rsplit_slash p with
  | Some (EmptyString, _) => "/"
  | Some (d, _) => d
  | None => "."
  end.

(** [dir / name]. *)
Definition path_join (dir name : string) : string :=
  if String.eqb dir "." then name
  else if String.eqb dir "/" then ("/" ++ name)%string
  else (dir ++ "/" ++ name)%string.

End Sys.

(* ================================================================== *)
(** * modules/video_processor.py                                        *)
(* ================================================================== *)

Module video_processor.
Import Sys.

(** The [quality_settings] table of [scale_video_to_1080p] and of
    [combine_video_audio], with [.get(quality_preset, high_quality)]. *)
Definition high_quality : Quality :=
  {| gpu_preset := "p6"; cq := "19"; multipass := "fullres";
     spatial_aq := "1"; temporal_aq := "1"; audio_bitrate := "320k" |}.

Definition quality_settings_get (quality_preset : string) : Quality :=
  if String.eqb quality_preset "ultra_fast" then
    {| gpu_preset := "p4"; cq := "23"; multipass := "disabled";
       spatial_aq := "0"; temporal_aq := "0"; audio_bitrate := "256k" |}
  else if String.eqb quality_preset "high_quality" then high_quality
  else if String.eqb quality_preset "maximum_quality" then
    {| gpu_preset := "p7"; cq := "17"; multipass := "fullres";
       spatial_aq := "1"; temporal_aq := "1"; audio_bitrate := "320k" |}
  else high_quality.

(** A task: the dictionary with [video_path], [audio_path], [output_path]
    and, once prepared, [quality_preset]. *)
Record Task :=
  { task_video_path : string; task_audio_path : string;
    task_output_path : string; task_quality_preset : option string }.

Inductive Status := success | failed.

Global Instance Status_eq_dec : EqDecision Status.
Proof. solve_decision. Defined.

(** A result record. *)
Record TaskResult :=
  { status : Status;
    output_path : option string;
    video_path : string;
    audio_path : string;
    error : option string;
    processing_time : Q;
    total_time : Q }.

(** What the scheduler returns. *)
Record Summary :=
  { results : list TaskResult;
    batch_total_time : Q;
    successful_count : Z;
    failed_count : Z;
    processing_mode : option string }.

Definition gpu_missing : string :=
  "❌ GPU (NVENC) not available! This version requires NVIDIA GPU with CUDA support.".

Section WithHost.
Variable h : Host.

Definition check_gpu_available : M bool :=
  try_except
    (result <- subprocess_run h FfmpegEncoders 10 ;;
     ret (Py.contains "h264_nvenc" (stdout result)))
    (fun _ => ret false).

Definition get_media_duration (path : string) : M Q :=
  result <- subprocess_run h (FfprobeDuration path) 30 ;;
  if negb (returncode result =? 0)
  then raise (RuntimeError ("ffprobe error: " ++ stderr result))
  else match float_of_string h (Py.strip (stdout result)) with
       | Some d => ret d
       | None => raise (RuntimeError "Unable to parse duration")
       end.

Definition get_video_resolution (path : string) : M (Z * Z) :=
  result <- subprocess_run h (FfprobeResolution path) 30 ;;
  if negb (returncode result =? 0)
  then raise (RuntimeError ("ffprobe error getting resolution: " ++ stderr result))
  else match map (int_of_string h) (Py.split_on "x" (Py.strip (stdout result))) with
       | [Some width; Some height] => ret (width, height)
       | _ => raise (RuntimeError "Unable to parse video resolution")
       end.

Definition scale_video_to_1080p (input_path output_path quality_preset : string)
  : M string :=
  wh <- get_video_resolution input_path ;;
  let '(width, height) := wh in
  if (width =? 1920) && (height =? 1080) then ret input_path
  else
    let selected_quality := quality_settings_get quality_preset in
    result <- subprocess_run h
                (FfmpegScale input_path output_path selected_quality
                   (String.eqb quality_preset "maximum_quality")) 3600 ;;
    if negb (returncode result =? 0)
    then raise (RuntimeError ("GPU video scaling failed: " ++ stderr result))
    else ret output_path.

Definition combine_video_audio (video_path audio_path output_path quality_preset : string)
  : M string :=
  let selected_quality := quality_settings_get quality_preset in
  result <- subprocess_run h
              (FfmpegCombine video_path audio_path output_path selected_quality
                 (String.eqb quality_preset "maximum_quality")) 3600 ;;
  if negb (returncode result =? 0)
  then raise (RuntimeError ("GPU video-audio combination failed: " ++ stderr result))
  else ret output_path.

(** [int(audio_dur / video_dur) + 1]: the division is that of the
    floats, [int] truncates and refuses an infinity. *)
Definition loops_needed (audio_dur video_dur : Q) : M Z :=
  if Qeq_bool video_dur 0 then raise ZeroDivisionError
  else
    let quotient := Py.truediv audio_dur video_dur in
    if Py.is_finite quotient then ret (Py.int_of_float quotient + 1)
    else raise (OverflowError "cannot convert float infinity to integer").

(** The lines written to [concat_list.txt]; [range(n)] is empty for
    [n <= 0]. *)
Definition concat_lines (processed_video_path : string) (loops : Z) : list string :=
  repeat ("file '" ++ resolve h processed_video_path ++ "'")%string (Z.to_nat loops).

Definition loop_video_to_match_audio
  (video_path audio_path output_path quality_preset : string) : M (string * Q) :=
  start_time <- time_time ;;
  let parent := path_parent output_path in
  let scaled_video_path := path_join parent ("scaled_input_" ++ path_name video_path) in
  processed_video_path <- scale_video_to_1080p video_path scaled_video_path quality_preset ;;
  video_dur <- get_media_duration processed_video_path ;;
  audio_dur <- get_media_duration audio_path ;;
  if Qle_bool audio_dur video_dur then
    result <- combine_video_audio processed_video_path audio_path output_path quality_preset ;;
    (if negb (String.eqb processed_video_path video_path)
     then try_except (unlink processed_video_path) (fun _ => ret tt)
     else ret tt) ;;;
    now <- time_time ;;
    ret (result, (now - start_time)%Q)
  else
    loops <- loops_needed audio_dur video_dur ;;
    let concat_file := path_join parent "concat_list.txt" in
    write_lines concat_file (concat_lines processed_video_path loops) ;;;
    let temp_looped := path_join parent "temp_looped.mp4" in
    result <- subprocess_run h (FfmpegConcat concat_file temp_looped) 3600 ;;
    if negb (returncode result =? 0)
    then raise (RuntimeError ("Video looping failed: " ++ stderr result))
    else
      let trimmed_video := path_join parent "temp_trimmed.mp4" in
      result <- subprocess_run h (FfmpegTrim temp_looped audio_dur trimmed_video) 3600 ;;
      if negb (returncode result =? 0)
      then raise (RuntimeError ("Video trimming failed: " ++ stderr result))
      else
        final_result <- combine_video_audio trimmed_video audio_path output_path
                          quality_preset ;;
        try_except
          (unlink concat_file ;;;
           unlink temp_looped ;;;
           unlink trimmed_video ;;;
           if negb (String.eqb processed_video_path video_path)
           then unlink processed_video_path
           else ret tt)
          (fun _ => ret tt) ;;;
        now <- time_time ;;
        ret (final_result, (now - start_time)%Q).

Definition process_single_video_task (task_data : Task) : M TaskResult :=
  start_time <- time_time ;;
  try_except
    (let video_path := task_video_path task_data in
     let audio_path := task_audio_path task_data in
     let output_path := task_output_path task_data in
     let quality_preset := default "high_quality"%string (task_quality_preset task_data) in
     r <- loop_video_to_match_audio video_path audio_path output_path quality_preset ;;
     let '(result_path, processing_time) := r in
     now <- time_time ;;
     ret {| status := success; output_path := Some result_path;
            video_path := video_path; audio_path := audio_path;
            error := None; processing_time := processing_time;
            total_time := (now - start_time)%Q |})
    (fun e =>
       now <- time_time ;;
       ret {| status := failed; output_path := None;
              video_path := task_video_path task_data;
              audio_path := task_audio_path task_data;
              error := Some (str_exn e); processing_time := 0;
              total_time := (now - start_time)%Q |}).

(** [sum(1 for r in results if r['status'] == 'success')]. *)
Definition count_success (results : list TaskResult) : Z :=
  Z.of_nat (length (filter (fun r => status r = success) results)).

(** One round of the loop over [as_completed(future_to_task)]. *)
Definition collect (results : list TaskResult) (ft : Result TaskResult * Task)
  : M (list TaskResult) :=
  let '(future, task) := ft in
  try_except
    (result <- future_result future ;;
     ret (results ++ [result]))
    (fun e =>
       ret (results ++
              [{| status := failed; output_path := None;
                  video_path := task_video_path task;
                  audio_path := task_audio_path task;
                  error := Some (str_exn e); processing_time := 0;
                  total_time := 0 |}])).

Definition process_videos_parallel
  (tasks : list Task) (max_workers : Z) (quality_preset : string) : M Summary :=
  batch_start_time <- time_time ;;
  gpu_available <- check_gpu_available ;;
  if negb gpu_available then raise (RuntimeError gpu_missing)
  else
    let max_workers := Py.min_Z max_workers 6 in
    let prepared_tasks :=
      map (fun task =>
             {| task_video_path := task_video_path task;
                task_audio_path := task_audio_path task;
                task_output_path := task_output_path task;
                task_quality_preset := Some quality_preset |}) tasks in
    ThreadPoolExecutor max_workers ;;;
    future_to_task <- mapM (fun task =>
                              future <- submit (process_single_video_task task) ;;
                              ret (future, task)) prepared_tasks ;;
    completed <- as_completed h future_to_task ;;
    results <- foldM collect [] completed ;;
    now <- time_time ;;
    let successful := count_success results in
    ret {| results := results;
           batch_total_time := (now - batch_start_time)%Q;
           successful_count := successful;
           failed_count := Z.of_nat (length results) - successful;
           processing_mode := None |}.

Definition process_videos_smart
  (tasks : list Task) (max_workers : Z) (quality_preset : string) : M Summary :=
  batch_start_time <- time_time ;;
  gpu_available <- check_gpu_available ;;
  if negb gpu_available then raise (RuntimeError gpu_missing)
  else
    match tasks with
    | [] =>
        ret {| results := []; batch_total_time := 0;
               successful_count := 0; failed_count := 0;
               processing_mode := Some "none"%string |}
    | [task] =>
        try_except
          (r <- loop_video_to_match_audio (task_video_path task) (task_audio_path task)
                  (task_output_path task) quality_preset ;;
           let '(result_path, processing_time) := r in
           now <- time_time ;;
           let total_time := (now - batch_start_time)%Q in
           ret {| results :=
                    [{| status := success; output_path := Some result_path;
                        video_path := task_video_path task;
                        audio_path := task_audio_path task;
                        error := None; processing_time := processing_time;
                        total_time := total_time |}];
                  batch_total_time := total_time;
                  successful_count := 1; failed_count := 0;
                  processing_mode := Some "single_gpu"%string |})
          (fun e =>
             now <- time_time ;;
             let total_time := (now - batch_start_time)%Q in
             ret {| results :=
                      [{| status := failed; output_path := None;
                          video_path := task_video_path task;
                          audio_path := task_audio_path task;
                          error := Some (str_exn e); processing_time := 0;
                          total_time := total_time |}];
                    batch_total_time := total_time;
                    successful_count := 0; failed_count := 1;
                    processing_mode := Some "single_gpu"%string |})
    | _ =>
        result <- process_videos_parallel tasks max_workers quality_preset ;;
        ret {| results := results result;
               batch_total_time := batch_total_time result;
               successful_count := successful_count result;
               failed_count := failed_count result;
               processing_mode := Some "parallel_gpu"%string |}
    end.

End WithHost.

End video_processor.

(* ================================================================== *)
(** * modules/video_overlay.py                                          *)
(* ================================================================== *)

Module video_overlay.
Import Sys.

(** [position_map.get(position, "10:10")]. *)
Definition position_map_get (position : string) : string :=
  if String.eqb position "top_left" then "10:10"
  else if String.eqb position "top_right" then "main_w-overlay_w-10:10"
  else if String.eqb position "bottom_left" then "10:main_h-overlay_h-10"
  else if String.eqb position "bottom_right" then "main_w-overlay_w-10:main_h-overlay_h-10"
  else if String.eqb position "center" then "(main_w-overlay_w)/2:(main_h-overlay_h)/2"
  else "10:10".

(** The [quality_settings] table of the overlay: [(gpu_preset, cq)]. *)
Definition quality_settings_get (quality_preset : string) : string * string :=
  if String.eqb quality_preset "ultra_fast" then ("p4", "23")
  else if String.eqb quality_preset "maximum_quality" then ("p7", "17")
  else ("p6", "19").

(** The timing resolution of [apply_video_overlay_smart]:
    [(actual_start, actual_end)] after the clamp. *)
Definition overlay_window
  (timing_mode : string) (start_time : Q) (end_time : option Q)
  (main_duration overlay_duration : Q) : Q * Q :=
  let '(actual_start, actual_end) :=
    if String.eqb timing_mode "full_duration" then (0%Q, main_duration)
    else if String.eqb timing_mode "overlay_duration"
    then (start_time, (start_time + overlay_duration)%Q)
    else (start_time, match end_time with
                      | Some e => e
                      | None => main_duration
                      end) in
  (actual_start, Py.min_Q actual_end main_duration).

(** The keyword arguments of [apply_video_overlay_smart]. *)
Record Options :=
  { timing_mode : string; start_time : Q; end_time : option Q;
    position : string; size_percent : Q;
    remove_green : bool; green_similarity : Q; green_blend : Q;
    keep_overlay_audio : bool; quality_preset : string }.

(** The defaults of the signature. *)
Definition default_options : Options :=
  {| timing_mode := "custom_time"; start_time := 0; end_time := None;
     position := "top_right"; size_percent := 20;
     remove_green := true; green_similarity := 0.3; green_blend := 0.1;
     keep_overlay_audio := false; quality_preset := "high_quality" |}.

Section WithHost.
Variable h : Host.

Definition get_video_duration (video_path : string) : M Q :=
  result <- subprocess_run h (FfprobeDuration video_path) 30 ;;
  if negb (returncode result =? 0)
  then raise (RuntimeError ("ffprobe error: " ++ stderr result))
  else match float_of_string h (Py.strip (stdout result)) with
       | Some d => ret d
       | None => raise (RuntimeError "Unable to parse duration")
       end.

Definition _apply_overlay_full_encode
  (main_video_path overlay_video_path output_path : string)
  (start_time end_time : Q) (o : Options) : M string :=
  let selected := quality_settings_get (quality_preset o) in
  result <- subprocess_run h
              (FfmpegOverlay
                 {| ov_main := main_video_path; ov_overlay := overlay_video_path;
                    ov_output := output_path;
                    ov_start := start_time; ov_end := end_time;
                    ov_position := position_map_get (position o);
                    ov_size_percent := size_percent o;
                    ov_remove_green := remove_green o;
                    ov_similarity := green_similarity o;
                    ov_blend := green_blend o;
                    ov_keep_audio := keep_overlay_audio o;
                    ov_gpu_preset := fst selected; ov_cq := snd selected |}) 3600 ;;
  if negb (returncode result =? 0)
  then raise (RuntimeError ("GPU overlay failed: " ++ stderr result))
  else ret output_path.

Definition apply_video_overlay_smart
  (main_video_path overlay_video_path output_path : string) (o : Options) : M string :=
  main_duration <- get_video_duration main_video_path ;;
  overlay_duration <- get_video_duration overlay_video_path ;;
  let '(actual_start, actual_end) :=
    overlay_window (timing_mode o) (start_time o) (end_time o)
      main_duration overlay_duration in
  _apply_overlay_full_encode main_video_path overlay_video_path output_path
    actual_start actual_end o.

End WithHost.

End video_overlay.

(* ================================================================== *)
(** * The vocabulary of the specification                               *)
(* ================================================================== *)

Module Spec.
Import Sys video_processor.

(** The sum of the durations of a list of chunks. *)
Definition total_duration (chunks : list caption_generator.Chunk) : Q :=
  fold_right (fun c acc => (caption_generator.end_ c - caption_generator.start c) + acc)%Q
    0%Q chunks.

(** The trace only grows. *)
Definition extends (w w' : World) : Prop := exists evs, trace w' = trace w ++ evs.

(** The exception carries a message. *)
Definition has_message (e : exn) : Prop := str_exn e <> EmptyString.

(** The path [loop_video_to_match_audio] scales the video to. *)
Definition scaled_path (video_path output_path : string) : string :=
  path_join (path_parent output_path) ("scaled_input_" ++ path_name video_path).

(** The intermediate files of [loop_video_to_match_audio]: the concat
    list, the looped video, the trimmed video, the scaled video. *)
Definition temporaries (video_path output_path : string) : list string :=
  [ path_join (path_parent output_path) "concat_list.txt";
    path_join (path_parent output_path) "temp_looped.mp4";
    path_join (path_parent output_path) "temp_trimmed.mp4";
    scaled_path video_path output_path ].

(** Nothing was removed: the files are all still there and no [unlink]
    was run. *)
Definition not_unlink (ev : Event) : Prop :=
  match ev with Unlinked _ => False | _ => True end.

Definition grows (w w' : World) : Prop :=
  fs w ⊆ fs w' /\ exists evs, trace w' = trace w ++ evs /\ Forall not_unlink evs.

(** [raise_grows m]: when [m] raises, nothing has been removed. *)
Definition raise_grows {A} (m : M A) : Prop :=
  forall w e w', m w = (Raise e, w') -> grows w w'.

(** The sizes of the worker pools created, oldest first. *)
Definition pools (evs : list Event) : list Z :=
  omap (fun e => match e with PoolCreated n => Some n | _ => None end) evs.

Definition same_pools (w w' : World) : Prop := pools (trace w') = pools (trace w).

(** The hardware encoder is advertised whenever ffmpeg is asked. *)
Definition gpu_present (h : Host) : Prop :=
  forall w, exists cp dt,
    spawn h FfmpegEncoders w = (Exited cp, dt) /\
    Py.contains "h264_nvenc" (stdout cp) = true.

(** A result record is either a success with an output path and no error,
    or a failure with an error message and no output path. *)
Definition well_formed (r : TaskResult) : Prop :=
  match status r with
  | success => is_Some (output_path r) /\ error r = None
  | failed => output_path r = None /\
              exists msg, error r = Some msg /\ msg <> EmptyString
  end.

(** The record the collecting loop appends for a completed future. *)
Definition result_of (ft : Result TaskResult * Task) : TaskResult :=
  match ft with
  | (Ok r, _) => r
  | (Raise e, task) =>
      {| status := failed; output_path := None;
         video_path := task_video_path task; audio_path := task_audio_path task;
         error := Some (str_exn e); processing_time := 0; total_time := 0 |}
  end.

(** The function [process_videos_parallel] maps over the prepared tasks. *)
Definition submit_task (h : Host) (task : Task) : M (Result TaskResult * Task) :=
  future <- submit (process_single_video_task h task) ;; ret (future, task).

(** The two exceptions the scheduler raises itself: no encoder, and a
    worker pool of no worker. *)
Definition scheduler_error (e : exn) : Prop :=
  e = RuntimeError gpu_missing \/
  e = ValueError "max_workers must be greater than 0".

(** The inputs a record, and a task, are about. *)
Definition inputs_of_result (r : TaskResult) : string * string :=
  (video_path r, audio_path r).

Definition inputs_of_task (t : Task) : string * string :=
  (task_video_path t, task_audio_path t).

Definition good_future (ft : Result TaskResult * Task) : Prop :=
  exists r, fst ft = Ok r /\ well_formed r /\
            inputs_of_result r = inputs_of_task (snd ft).

(** A summary accounts for the tasks submitted: one well-formed record per
    task, in some order, and counts that add up. *)
Definition accounts_for (tasks : list Task) (s : Summary) : Prop :=
  map inputs_of_result (results s) ≡ₚ map inputs_of_task tasks /\
  Forall well_formed (results s) /\
  successful_count s = count_success (results s) /\
  failed_count s = Z.of_nat (length (results s)) - successful_count s.

(** The numbers of lines of the files written, oldest first. *)
Definition lines_written (evs : list Event) : list nat :=
  omap (fun e => match e with Wrote _ lines => Some (length lines) | _ => None end) evs.

(** What a record says of a task, against the outcome of the duration
    matcher for it: a success with the path returned, or a failure with
    the message of the exception, which is not empty. *)
Definition reports (outcome : Result (string * Q)) (task : Task) (r : TaskResult)
  : Prop :=
  video_path r = task_video_path task /\
  audio_path r = task_audio_path task /\
  match outcome with
  | Ok (result_path, elapsed) =>
      status r = success /\ output_path r = Some result_path /\
      error r = None /\ processing_time r = elapsed
  | Raise e =>
      status r = failed /\ output_path r = None /\
      error r = Some (str_exn e) /\ str_exn e <> EmptyString
  end.

(** The tasks went through the duration matcher one after the other, with
    the preset of the batch, from world [w] to world [w']; the records
    report the outcomes, in the order of the tasks. *)
Inductive ran_in_turn (h : Host) (preset : string)
  : World -> list Task -> list TaskResult -> World -> Prop :=
| ran_none w : ran_in_turn h preset w [] [] w
| ran_next w task tasks r records w' :
    let run := loop_video_to_match_audio h (task_video_path task)
                 (task_audio_path task) (task_output_path task) preset w in
    reports (fst run) task r ->
    ran_in_turn h preset (snd run) tasks records w' ->
    ran_in_turn h preset w (task :: tasks) (r :: records) w'.

(** The world in which the first task starts: after the encoder query of
    [process_videos_smart] and, for two tasks or more, after that of
    [process_videos_parallel] and the creation of the pool. *)
Definition first_task_world (h : Host) (max_workers : Z) (tasks : list Task)
  (w : World) : World :=
  let checked := snd (check_gpu_available h w) in
  match tasks with
  | [] | [_] => checked
  | _ => log_event (PoolCreated (Py.min_Z max_workers 6))
           (snd (check_gpu_available h checked))
  end.

End Spec.

(* ================================================================== *)
(** * Machines to run the code on                                       *)
(* ================================================================== *)

Module Scenarios.
Import Sys video_processor.

Definition parse_nat (s : string) : option Z :=
  if Py.is_empty s then None
  else match NilEmpty.uint_of_string s with
       | Some u => Some (Z.of_uint u)
       | None => None
       end.

(** Decimal notation, [digits] or [digits.digits]: what ffprobe prints. *)
Definition parse_decimal (s : string) : option Q :=
  match Py.split_on "." s with
  | [a] => match parse_nat a with
           | Some n => Some (inject_Z n)
           | None => None
           end
  | [a; b] => match parse_nat a, parse_nat b with
              | Some n, Some f =>
                  Some (inject_Z n + inject_Z f / inject_Z (10 ^ Z.of_nat (String.length b)))%Q
              | _, _ => None
              end
  | _ => None
  end.

(** A media file known to ffprobe: what it prints for the duration and for
    the resolution. *)
Definition Media : Type := string * (string * string).

Fixpoint lookup_media (files : list Media) (path : string) : option (string * string) :=
  match files with
  | [] => None
  | (p, info) :: files' => if String.eqb p path then Some info else lookup_media files' path
  end.

Definition exit_ok (out : string) : Outcome :=
  Exited {| returncode := 0; stdout := out; stderr := "" |}.

Definition exit_fail (err : string) : Outcome :=
  Exited {| returncode := 1; stdout := ""; stderr := err |}.

(** A machine with ffmpeg and the hardware encoder (unless [gpu] is
    false), the media files [files], on which the commands selected by
    [fails] exit with code 1; every command takes one second. *)
Definition machine (gpu : bool) (files : list Media) (fails : Cmd -> bool)
  (order : list nat) : Host :=
  {| spawn := fun c _ =>
       (match c with
        | FfmpegEncoders =>
            exit_ok (if gpu then " V....D h264_nvenc  NVIDIA NVENC H.264 encoder"
                     else " V....D libx264  H.264")
        | FfprobeDuration path =>
            match lookup_media files path with
            | Some (d, _) => exit_ok d
            | None => exit_fail (path ++ ": No such file or directory")
            end
        | FfprobeResolution path =>
            match lookup_media files path with
            | Some (_, r) => exit_ok r
            | None => exit_fail (path ++ ": No such file or directory")
            end
        | _ => if fails c then exit_fail "Conversion failed!" else exit_ok ""
        end, 1%Q);
     float_of_string := fun s => option_map Py.fround (parse_decimal s);
     int_of_string := parse_nat;
     resolve := fun p => p;
     completion_order := fun _ => order |}.

Definition never (c : Cmd) : bool := false.

Definition concat_fails (c : Cmd) : bool :=
  match c with FfmpegConcat _ _ => true | _ => false end.

Definition empty_world : World := {| fs := ∅; clock := 0; trace := [] |}.

Definition studio : list Media :=
  [ ("/in/bg.mp4", ("10.000000", "1920x1080"));
    ("/in/long.mp4", ("30.000000", "1920x1080"));
    ("/in/small.mp4", ("10.000000", "1280x720"));
    ("/out/scaled_input_small.mp4", ("10.000000", "1920x1080"));
    ("/in/a25.mp3", ("25.000000", ""));
    ("/in/a10.mp3", ("10.000000", ""));
    ("/in/a7.mp3", ("7.500000", ""));
    ("/in/main.mp4", ("60.000000", "1920x1080"));
    ("/in/green.mp4", ("5.000000", "640x360")) ]%string.

Definition task (video audio out : string) : Task :=
  {| task_video_path := video; task_audio_path := audio;
     task_output_path := out; task_quality_preset := None |}.

(** The machine of the examples: encoder present, nothing fails. *)
Definition workstation : Host := machine true studio never [1%nat].

(** Short clips, already 1080p, and their sounds. *)
Definition clips : list Media :=
  [ ("/in/c08.mp4", ("0.800000", "1920x1080"));
    ("/in/a40.mp3", ("4.000000", ""));
    ("/in/c11.mp4", ("1.100000", "1920x1080"));
    ("/in/a33.mp3", ("3.300000", "")) ]%string.

Definition cutting_room : Host := machine true clips never [].

(** The same machine, on which concatenation fails. *)
Definition broken_concat : Host := machine true studio concat_fails [].

(** Three tasks, the second with an audio file that does not exist. *)
Definition three_tasks : list Task :=
  [ task "/in/bg.mp4" "/in/a25.mp3" "/out/1.mp4";
    task "/in/bg.mp4" "/in/missing.mp3" "/out/2.mp4";
    task "/in/long.mp4" "/in/a7.mp3" "/out/3.mp4" ]%string.

(** Ten tasks. *)
Definition ten_tasks : list Task :=
  repeat (task "/in/long.mp4" "/in/a7.mp3" "/out/x.mp4") 10.

(** An overlay asked to end at 90 seconds. *)
Definition until_90 : video_overlay.Options :=
  {| video_overlay.timing_mode := "custom_time";
     video_overlay.start_time := 5;
     video_overlay.end_time := Some 90%Q;
     video_overlay.position := "top_right";
     video_overlay.size_percent := 20;
     video_overlay.remove_green := true;
     video_overlay.green_similarity := 0.3;
     video_overlay.green_blend := 0.1;
     video_overlay.keep_overlay_audio := false;
     video_overlay.quality_preset := "high_quality" |}.

End Scenarios.

(* ================================================================== *)
(** * More vocabulary: words, groups, chronological order               *)
(* ================================================================== *)

Module Notions.
Import caption_generator.

(** No character of the string is whitespace. *)
Fixpoint spaceless (s : string) : bool :=
  match s with
  | EmptyString => true
  | String c s' => negb (Py.isspace c) && spaceless s'
  end.

(** A word as [str.split] yields them: not empty, no whitespace. *)
Definition is_word (s : string) : Prop :=
  s <> EmptyString /\ spaceless s = true.

(** The words of a chunk. *)
Definition words_of (chunk : string) : list string := Py.split chunk.

(** The loop of [chunk_text_by_words] on lists of words: the groups it
    closes, [current] being the group under construction. *)
Fixpoint groups (max_words : Z) (words current : list string) : list (list string) :=
  match words with
  | [] => if bool_decide (current = []) then [] else [current]
  | word :: rest =>
      let current := current ++ [word] in
      if Z.of_nat (length current) >=? max_words
      then current :: groups max_words rest []
      else groups max_words rest current
  end.

End Notions.

(* ================================================================== *)
(** * Python values: more formatting                                    *)
(* ================================================================== *)

Module PyFmt.

(** [f"{x:.1f}"]: one decimal, rounded half to even. *)
Definition format_1f (x : Q) : string :=
  let negative := if Qlt_le_dec x 0 then true else false in
  let h := Py.round_half_even (Qabs x * 10) in
  ((if negative then "-" else EmptyString) ++ Py.str_int (h / 10) ++ "." ++ Py.str_int (h mod 10))%string.

End PyFmt.

(* ================================================================== *)
(** * modules/video_processor.py: the time label                        *)
(* ================================================================== *)

Module video_processor_labels.

(** [format_time]. *)
Definition format_time (seconds : Q) : string :=
  if Qlt_le_dec seconds 60 then (PyFmt.format_1f seconds ++ "s")%string
  else if Qlt_le_dec seconds 3600 then
    let mins := Py.int_of_float (Py.floordiv seconds 60) in
    let secs := Py.int_of_float (Py.mod_ seconds 60) in
    (Py.str_int mins ++ "m " ++ Py.str_int secs ++ "s")%string
  else
    let hours := Py.int_of_float (Py.floordiv seconds 3600) in
    let mins := Py.int_of_float (Py.floordiv (Py.mod_ seconds 3600) 60) in
    (Py.str_int hours ++ "h " ++ Py.str_int mins ++ "m")%string.

End video_processor_labels.

(* ================================================================== *)
(** * vidprocessor.py: the colours of the subtitles                     *)
(* ================================================================== *)

(** The two colour helpers of the subtitle step, on strings of ASCII
    characters. A [ValueError] of [int] is the only exception they can
    raise for an integer opacity; it is modelled by [None]. *)
Module vidprocessor.

(** [s.lstrip('#')]. *)
Fixpoint lstrip_hash (s : string) : string :=
  match s with
  | String c s' => if Ascii.eqb c "#" then lstrip_hash s' else s
  | EmptyString => EmptyString
  end.

(** [s[i:j]] for [0 <= i <= j]: shorter when the string ends before. *)
Definition slice (s : string) (i j : nat) : string := String.substring i (j - i) s.

(** The value of a hexadecimal digit, of either case. *)
Definition hex_value (c : ascii) : option Z :=
  let n := Z.of_nat (nat_of_ascii c) in
  if (48 <=? n) && (n <=? 57) then Some (n - 48)
  else if (97 <=? n) && (n <=? 102) then Some (n - 87)
  else if (65 <=? n) && (n <=? 70) then Some (n - 55)
  else None.

(** Digits, with single underscores between them; [after_digit] tells
    whether the character before was a digit. *)
Fixpoint hex_digits (acc : Z) (after_digit : bool) (s : string) : option Z :=
  match s with
  | EmptyString => if after_digit then Some acc else None
  | String c s' =>
      if Ascii.eqb c "_" then (if after_digit then hex_digits acc false s' else None)
      else match hex_value c with
           | Some d => hex_digits (16 * acc + d) true s'
           | None => None
           end
  end.

(** The digits after the sign: an optional [0x] or [0X], which may be
    followed by one underscore, then the digits. *)
Definition hex_body (s : string) : option Z :=
  match s with
  | String "0" (String x rest) =>
      if Ascii.eqb x "x" || Ascii.eqb x "X"
      then match rest with
           | String "_" rest' => hex_digits 0 false rest'
           | _ => hex_digits 0 false rest
           end
      else hex_digits 0 false s
  | _ => hex_digits 0 false s
  end.

(** [int(s, 16)]: surrounding whitespace, an optional sign, the body. *)
Definition int_base16 (s : string) : option Z :=
  match Py.strip s with
  | String "+" body => hex_body body
  | String "-" body => option_map Z.opp (hex_body body)
  | body => hex_body body
  end.

Definition hex_char (d : Z) : ascii :=
  ascii_of_nat (Z.to_nat (if d <? 10 then 48 + d else 55 + d)).

(** The digits of [n >= 0] in base 16, upper case. *)
Fixpoint hex_upper_go (fuel : nat) (n : Z) (acc : string) : string :=
  match fuel with
  | O => acc
  | S fuel' =>
      let acc := String (hex_char (n mod 16)) acc in
      if n / 16 =? 0 then acc else hex_upper_go fuel' (n / 16) acc
  end.

Definition hex_upper (n : Z) : string :=
  hex_upper_go (S (Z.to_nat (Z.log2 n))) n EmptyString.

(** [f"{n:02X}"]. *)
Definition format_02X (n : Z) : string :=
  Py.zero_pad 2 (n <? 0) (hex_upper (Z.abs n)).

Definition hex_to_ass (hex_color : string) : option string :=
  let hex_color := lstrip_hash hex_color in
  match int_base16 (slice hex_color 0 2) with
  | None => None
  | Some r =>
  match int_base16 (slice hex_color 2 4) with
  | None => None
  | Some g =>
  match int_base16 (slice hex_color 4 6) with
  | None => None
  | Some b => Some ("&H00" ++ format_02X b ++ format_02X g ++ format_02X r)%string
  end end end.

Definition hex_to_ass_alpha (hex_color : string) (alpha : Z) : option string :=
  let hex_color := lstrip_hash hex_color in
  match int_base16 (slice hex_color 0 2) with
  | None => None
  | Some r =>
  match int_base16 (slice hex_color 2 4) with
  | None => None
  | Some g =>
  match int_base16 (slice hex_color 4 6) with
  | None => None
  | Some b =>
      let alpha_inv := 255 - alpha in
      Some ("&H" ++ format_02X alpha_inv ++ format_02X b ++ format_02X g ++ format_02X r)%string
  end end end.

End vidprocessor.

(* ================================================================== *)
(** * More vocabulary: colours                                          *)
(* ================================================================== *)

Module Colours.

(** A hexadecimal digit, in upper or in lower case. *)
Definition hex_digit (upper : bool) (d : Z) : ascii :=
  ascii_of_nat (Z.to_nat (if d <? 10 then 48 + d else if upper then 55 + d else 87 + d)).

(** A byte written with two hexadecimal digits. *)
Definition two_hex (upper : bool) (n : Z) : string :=
  String (hex_digit upper (n / 16)) (String (hex_digit upper (n mod 16)) EmptyString).

(** The numbers from 0 to 255. *)
Definition bytes : list Z := map Z.of_nat (seq 0 256).

(** What is checked of every byte: [int] reads its two digits back, in
    either case, [02X] prints them in upper case, and the first digit is
    not a hash. *)
Definition byte_ok (n : Z) : bool :=
  bool_decide (vidprocessor.int_base16 (two_hex true n) = Some n) &&
  bool_decide (vidprocessor.int_base16 (two_hex false n) = Some n) &&
  bool_decide (vidprocessor.format_02X n = two_hex true n) &&
  negb (Ascii.eqb (hex_digit true (n / 16)) "#") &&
  negb (Ascii.eqb (hex_digit false (n / 16)) "#").

End Colours.

(* ================================================================== *)
(** * More machines and inputs                                          *)
(* ================================================================== *)

Module MoreScenarios.
Import Sys video_processor Scenarios.

(** The machine of the examples without the hardware encoder. *)
Definition no_encoder : Host := machine false studio never [].

(** An overlay asked to start at 70 seconds, for as long as it lasts. *)
Definition from_70 : video_overlay.Options :=
  {| video_overlay.timing_mode := "overlay_duration";
     video_overlay.start_time := 70;
     video_overlay.end_time := None;
     video_overlay.position := "center";
     video_overlay.size_percent := 20;
     video_overlay.remove_green := false;
     video_overlay.green_similarity := 0.3;
     video_overlay.green_blend := 0.1;
     video_overlay.keep_overlay_audio := true;
     video_overlay.quality_preset := "ultra_fast" |}.

(** One task, a 720p video under a longer audio. *)
Definition one_task : list Task :=
  [ task "/in/small.mp4" "/in/a25.mp3" "/out/o.mp4" ]%string.

End MoreScenarios.

(* ================================================================== *)
(** * Facts about the Python values                                     *)
(* ================================================================== *)

Section PyFacts.

Lemma Qfloor_as_div (x : Q) : Qfloor x = Qnum x / Zpos (Qden x).
Proof. destruct x; reflexivity. Qed.

(** On a float that is not negative, [int] is the floor. *)
Lemma int_of_float_floor (x : Q) : (0 <= x)%Q -> Py.int_of_float x = Qfloor x.
Proof.
  intros Hx. rewrite Qfloor_as_div. unfold Py.int_of_float.
  apply Z.quot_div_nonneg; [| lia].
  unfold Qle in Hx. simpl in Hx. lia.
Qed.

Lemma min_Q_le_r (a b : Q) : (Py.min_Q a b <= b)%Q.
Proof.
  unfold Py.min_Q. destruct (Qlt_le_dec b a); [apply Qle_refl | assumption].
Qed.


Lemma min_Z_spec (a b : Z) : Py.min_Z a b = Z.min a b.
Proof. unfold Py.min_Z. destruct (Z.ltb_spec b a); lia. Qed.

Lemma lstrip_head (s : string) :
  Py.lstrip s = EmptyString \/
  exists c r, Py.lstrip s = String c r /\ Py.isspace c = false.
Proof.
  induction s as [| c s IH]; simpl; [now left |].
  destruct (Py.isspace c) eqn:Hc; [exact IH |].
  right. exists c, s. split; [reflexivity | exact Hc].
Qed.

Lemma strip_head (s : string) :
  Py.strip s <> EmptyString ->
  exists c r, Py.strip s = String c r /\ Py.isspace c = false.
Proof.
  unfold Py.strip. intros Hne.
  destruct (lstrip_head s) as [He | (c & r & He & Hc)]; rewrite He in *.
  - now contradict Hne.
  - exists c, (Py.rstrip r). split; [simpl; rewrite Hc; reflexivity | exact Hc].
Qed.

Lemma split_go_nonempty (s cur : string) :
  cur <> EmptyString -> Py.split_go cur s <> [].
Proof.
  revert cur. induction s as [| c s IH]; intros cur Hcur; simpl.
  - destruct cur; [now contradict Hcur | discriminate].
  - destruct (Py.isspace c).
    + destruct cur; [now contradict Hcur | discriminate].
    + apply IH. destruct cur; discriminate.
Qed.

(** A stripped text that is not empty has a word. *)
Lemma split_strip_nonempty (s : string) :
  Py.strip s <> EmptyString -> Py.split (Py.strip s) <> [].
Proof.
  intros Hne. destruct (strip_head s Hne) as (c & r & -> & Hc).
  unfold Py.split. simpl. rewrite Hc. apply split_go_nonempty. discriminate.
Qed.

End PyFacts.

(* ================================================================== *)
(** * Facts about the rounding of floats                                *)
(* ================================================================== *)

Section FloatFacts.
Import Py.

(** The floor brackets its argument. *)
Lemma floor_bounds (x : Q) :
  (inject_Z (Qfloor x) <= x)%Q /\ (x < inject_Z (Qfloor x) + 1)%Q.
Proof.
  split; [apply Qfloor_le |].
  pose proof (Qlt_floor x) as H. rewrite inject_Z_plus in H. exact H.
Qed.

Lemma floor_nonneg (x : Q) : (0 <= x)%Q -> 0 <= Qfloor x.
Proof. intros H. change 0 with (Qfloor 0). now apply Qfloor_resp_le. Qed.

(** Rounding to the nearest integer does not cross an integer. *)
Lemma round_half_even_ge (x : Q) (n : Z) :
  (inject_Z n <= x)%Q -> n <= round_half_even x.
Proof.
  intros H. assert (Hf : n <= Qfloor x).
  { rewrite <- (Qfloor_Z n). now apply Qfloor_resp_le. }
  unfold round_half_even.
  destruct (x - inject_Z (Qfloor x) ?= 1 # 2)%Q; [destruct (Z.even _) | |]; lia.
Qed.

Lemma round_half_even_le (x : Q) (n : Z) :
  (x <= inject_Z n)%Q -> round_half_even x <= n.
Proof.
  intros H. destruct (floor_bounds x) as [Hlo Hhi].
  assert (Hf : Qfloor x <= n).
  { rewrite Zle_Qle. lra. }
  destruct (Z.eq_dec (Qfloor x) n) as [E | Hne].
  - (* x is the integer n *)
    assert (Hx : (x - inject_Z (Qfloor x) == 0)%Q) by (rewrite E in *; lra).
    unfold round_half_even.
    destruct (x - inject_Z (Qfloor x) ?= 1 # 2)%Q eqn:C.
    + apply Qeq_alt in C. lra.
    + lia.
    + apply Qgt_alt in C. lra.
  - unfold round_half_even.
    destruct (x - inject_Z (Qfloor x) ?= 1 # 2)%Q; [destruct (Z.even _) | |]; lia.
Qed.

Lemma two_pos (z : Z) : (0 < 2 ^ z)%Q.
Proof. now apply Qpower_0_lt. Qed.

Lemma two_power (n : Z) : 0 <= n -> (2 ^ n == inject_Z (2 ^ n))%Q.
Proof. intros Hn. symmetry. now apply (Zpower_Qpower 2). Qed.

(** The exponent is at most [K] for a number below [2^(K+1)]. *)
Lemma exponent_upper (a : Q) (K : Z) :
  (0 < a)%Q -> (a < 2 ^ (K + 1))%Q -> exponent a <= K.
Proof.
  intros Ha Hlt. unfold exponent.
  set (k0 := Z.log2 (Qnum a) - Z.log2 (Z.pos (Qden a))).
  assert (Hk0 : (2 ^ (k0 - 1) < a)%Q).
  { destruct a as [n d]. unfold k0. simpl Qnum in *. simpl Qden in *.
    assert (Hn : 0 < n) by (unfold Qlt in Ha; simpl in Ha; lia).
    pose proof (Z.log2_spec n Hn) as [Hn1 _].
    pose proof (Z.log2_spec (Z.pos d) eq_refl) as [_ Hd2].
    pose proof (Z.log2_nonneg n) as Ln. pose proof (Z.log2_nonneg (Z.pos d)) as Ld.
    replace (Z.log2 n - Z.log2 (Z.pos d) - 1)
      with (Z.log2 n - Z.succ (Z.log2 (Z.pos d))) by lia.
    rewrite Qpower_minus by discriminate.
    rewrite !two_power by lia.
    apply Qlt_shift_div_r.
    - change 0%Q with (inject_Z 0). rewrite <- Zlt_Qlt. lia.
    - assert (E : ((n # d) == inject_Z n / inject_Z (Z.pos d))%Q) by apply Qmake_Qdiv.
      assert (Hdpos : (0 < inject_Z (Z.pos d))%Q) by reflexivity.
      assert (A : (inject_Z (2 ^ Z.log2 n) <= inject_Z n)%Q) by (rewrite <- Zle_Qle; lia).
      assert (B : (inject_Z (Z.pos d) < inject_Z (2 ^ Z.succ (Z.log2 (Z.pos d))))%Q)
        by (rewrite <- Zlt_Qlt; lia).
      assert (Hn0 : (0 < inject_Z n)%Q).
      { change 0%Q with (inject_Z 0). rewrite <- Zlt_Qlt. lia. }
      set (D := inject_Z (2 ^ Z.succ (Z.log2 (Z.pos d)))) in *.
      assert (Hr : (1 < D / inject_Z (Z.pos d))%Q).
      { apply Qlt_shift_div_l; [exact Hdpos | lra]. }
      assert (E' : ((n # d) * D == inject_Z n * (D / inject_Z (Z.pos d)))%Q).
      { rewrite E. field. lra. }
      rewrite E'. nra. }
  destruct (Qlt_le_dec a (2 ^ k0)) as [Hlo | Hhi].
  - assert (H : (2 ^ (k0 - 1) < 2 ^ (K + 1))%Q) by lra.
    apply Qpower_lt_compat_l_inv in H; [lia | reflexivity].
  - assert (H : (2 ^ k0 < 2 ^ (K + 1))%Q) by lra.
    apply Qpower_lt_compat_l_inv in H; [lia | reflexivity].
Qed.

(** A number on a grid at least as coarse as that of the floats around
    [q]: rounding [q] does not cross it. *)
Lemma fround_grid (q : Q) (z e : Z) :
  (0 < q)%Q -> Z.max (exponent q - 52) (-1074) <= e ->
  let g := (inject_Z z * 2 ^ e)%Q in
  ((g <= q)%Q -> (g <= fround q)%Q) /\ ((q <= g)%Q -> (fround q <= g)%Q).
Proof.
  intros Hq He g. unfold fround.
  destruct (Qeq_bool q 0) eqn:E0; [apply Qeq_bool_iff in E0; lra |].
  destruct (Qlt_le_dec q 0) as [Hneg | _]; [lra |].
  assert (Ea : Qabs q = q).
  { destruct q as [[| n | n] d]; try reflexivity;
      unfold Qlt in Hq; simpl in Hq; lia. }
  rewrite Ea. unfold ulp.
  set (e0 := Z.max (exponent q - 52) (-1074)) in *.
  pose proof (two_pos e0) as Hu.
  assert (Hg : (g == inject_Z (z * 2 ^ (e - e0)) * 2 ^ e0)%Q).
  { unfold g. rewrite inject_Z_mult, <- two_power by lia.
    rewrite Qpower_minus by discriminate. field.
    intros H. pose proof (two_pos e0). lra. }
  assert (Hx : (q == (q / 2 ^ e0) * 2 ^ e0)%Q) by (field; lra).
  set (x := (q / 2 ^ e0)%Q) in *. set (N := z * 2 ^ (e - e0)) in *.
  split; intros H.
  - assert (Hle : (inject_Z N <= x)%Q).
    { apply Qmult_le_r with (z := (2 ^ e0)%Q); [exact Hu | lra]. }
    apply round_half_even_ge in Hle. rewrite Zle_Qle in Hle. rewrite Hg. nra.
  - assert (Hle : (x <= inject_Z N)%Q).
    { apply Qmult_le_r with (z := (2 ^ e0)%Q); [exact Hu | lra]. }
    apply round_half_even_le in Hle. rewrite Zle_Qle in Hle. rewrite Hg. nra.
Qed.

(** Below [2^53] rounding does not cross an integer. *)
Lemma fround_integer (q : Q) (n : Z) :
  (0 < q)%Q -> (q < 2 ^ 53)%Q ->
  ((inject_Z n <= q)%Q -> (inject_Z n <= fround q)%Q) /\
  ((q <= inject_Z n)%Q -> (fround q <= inject_Z n)%Q).
Proof.
  intros Hq Hlt.
  assert (He : Z.max (exponent q - 52) (-1074) <= 0).
  { pose proof (exponent_upper q 52 Hq Hlt). lia. }
  destruct (fround_grid q n 0 Hq He) as [H1 H2]. cbv zeta in H1, H2.
  change (2 ^ 0)%Q with 1%Q in H1, H2.
  split; intros H.
  - assert (X : (inject_Z n * 1 <= fround q)%Q) by (apply H1; lra). lra.
  - assert (X : (fround q <= inject_Z n * 1)%Q) by (apply H2; lra). lra.
Qed.

Lemma fround_nonneg (q : Q) : (0 <= q)%Q -> (0 <= fround q)%Q.
Proof.
  intros Hq. destruct (Qlt_le_dec 0 q) as [Hpos | Hz].
  - destruct (fround_grid q 0 (Z.max (exponent q - 52) (-1074)) Hpos (Z.le_refl _))
      as [H _].
    cbv zeta in H. assert (E : (inject_Z 0 * 2 ^ Z.max (exponent q - 52) (-1074) == 0)%Q)
      by (change (inject_Z 0) with 0%Q; ring).
    rewrite E in H. apply H. lra.
  - unfold fround. assert (E : Qeq_bool q 0 = true) by (apply Qeq_bool_iff; lra).
    rewrite E. lra.
Qed.

(** A number with at most 52 bits after the binary point, below [2^52] at
    that: it is a float. *)
Lemma fround_exact (q : Q) (z : Z) (j : Z) :
  (0 < q)%Q -> (q < 2 ^ 52)%Q -> -1 <= j -> (q == inject_Z z * 2 ^ j)%Q ->
  (fround q == q)%Q.
Proof.
  intros Hq Hlt Hj Hz.
  assert (He : Z.max (exponent q - 52) (-1074) <= j).
  { pose proof (exponent_upper q 51 Hq Hlt). lia. }
  destruct (fround_grid q z j Hq He) as [H1 H2]. cbv zeta in H1, H2.
  apply Qle_antisym.
  - rewrite Hz at 2. apply H2. lra.
  - rewrite Hz at 1. apply H1. lra.
Qed.

End FloatFacts.

(* ================================================================== *)
(** * Facts about the caption generator                                 *)
(* ================================================================== *)

Section CaptionFacts.
Import caption_generator Spec.

Lemma chunk_loop_nonempty (max_words : Z) (words current chunks : list string) :
  words <> [] \/ current <> [] \/ chunks <> [] ->
  chunk_loop max_words words current chunks <> [].
Proof.
  revert current chunks.
  induction words as [| word rest IH]; intros current chunks H; simpl.
  - case_bool_decide as Hc.
    + destruct H as [H | [H | H]]; congruence.
    + destruct chunks; discriminate.
  - destruct (_ >=? _).
    + apply IH. right. right. destruct chunks; discriminate.
    + apply IH. right. left. destruct current; discriminate.
Qed.

Lemma chunk_text_nonempty (s : string) (max_words : Z) :
  Py.strip s <> EmptyString -> chunk_text_by_words (Py.strip s) max_words <> [].
Proof.
  intros H. apply chunk_loop_nonempty. left. now apply split_strip_nonempty.
Qed.

Lemma emit_chunks_length s d i chunks :
  length (emit_chunks s d i chunks) = length chunks.
Proof.
  revert i. induction chunks as [| c chunks IH]; intros i; simpl; [| rewrite IH]; reflexivity.
Qed.

Lemma emit_chunks_text s d i chunks :
  map text (emit_chunks s d i chunks) = chunks.
Proof.
  revert i. induction chunks as [| c chunks IH]; intros i; simpl; [| rewrite IH]; reflexivity.
Qed.

Lemma emit_chunks_lookup s d chunks : forall i j c,
  emit_chunks s d i chunks !! j = Some c ->
  start c = (s + inject_Z (Z.of_nat (i + j)) * d)%Q /\
  end_ c = (start c + d)%Q.
Proof.
  induction chunks as [| ch chunks IH]; intros i j c H; simpl in H; [discriminate |].
  destruct j as [| j]; simpl in H.
  - injection H as <-. simpl. rewrite Nat.add_0_r. split; reflexivity.
  - apply IH in H. replace (i + S j)%nat with (S i + j)%nat by lia. exact H.
Qed.

Lemma emit_chunks_total s d chunks : forall i,
  (total_duration (emit_chunks s d i chunks) == inject_Z (Z.of_nat (length chunks)) * d)%Q.
Proof.
  induction chunks as [| ch chunks IH]; intros i.
  - simpl. ring.
  - cbn [emit_chunks total_duration fold_right start end_ length].
    fold (total_duration (emit_chunks s d (S i) chunks)).
    rewrite IH. rewrite Nat2Z.inj_succ. unfold Z.succ. rewrite inject_Z_plus. ring.
Qed.

End CaptionFacts.

(* ================================================================== *)
(** * Reasoning about effectful code                                    *)
(* ================================================================== *)

Section MonadFacts.
Import Sys.

Lemma bind_ok {A B} (m : M A) (k : A -> M B) w a w1 :
  m w = (Ok a, w1) -> bind m k w = k a w1.
Proof. intros H. unfold bind. now rewrite H. Qed.

Lemma bind_raise {A B} (m : M A) (k : A -> M B) w e w1 :
  m w = (Raise e, w1) -> bind m k w = (Raise e, w1).
Proof. intros H. unfold bind. now rewrite H. Qed.

Lemma bind_inv {A B} (m : M A) (k : A -> M B) w r w' :
  bind m k w = (r, w') ->
  (exists a w1, m w = (Ok a, w1) /\ k a w1 = (r, w')) \/
  (exists e, m w = (Raise e, w') /\ r = Raise e).
Proof.
  unfold bind. destruct (m w) as [[a | e] w1]; intros H.
  - left. eauto.
  - right. exists e. now inversion H.
Qed.

Lemma try_except_inv {A} (m : M A) (handler : exn -> M A) w r w' :
  try_except m handler w = (r, w') ->
  (exists a, m w = (Ok a, w') /\ r = Ok a) \/
  (exists e w1, m w = (Raise e, w1) /\ handler e w1 = (r, w')).
Proof.
  unfold try_except. destruct (m w) as [[a | e] w1]; intros H.
  - left. exists a. now inversion H.
  - right. eauto.
Qed.

Section Preserves.
Context (R : relation World) `{!PreOrder R}.

Lemma preserves_ret {A} (a : A) : preserves R (ret a).
Proof. intros w r w' H. inversion H. reflexivity. Qed.

Lemma preserves_raise {A} e : preserves R (@raise A e).
Proof. intros w r w' H. inversion H. reflexivity. Qed.

Lemma preserves_time : preserves R time_time.
Proof. intros w r w' H. inversion H. reflexivity. Qed.


Lemma preserves_bind {A B} (m : M A) (k : A -> M B) :
  preserves R m -> (forall a, preserves R (k a)) -> preserves R (bind m k).
Proof.
  intros Hm Hk w r w' H.
  apply bind_inv in H as [(a & w1 & H1 & H2) | (e & H1 & _)].
  - transitivity w1; [eapply Hm | eapply Hk]; eassumption.
  - eapply Hm; eassumption.
Qed.

Lemma preserves_try {A} (m : M A) handler :
  preserves R m -> (forall e, preserves R (handler e)) -> preserves R (try_except m handler).
Proof.
  intros Hm Hh w r w' H.
  apply try_except_inv in H as [(a & H1 & _) | (e & w1 & H1 & H2)].
  - eapply Hm; eassumption.
  - transitivity w1; [eapply Hm | eapply Hh]; eassumption.
Qed.




End Preserves.

Lemma raises_only_ret {A} P (a : A) : raises_only P (ret a).
Proof. intros w e w' H. inversion H. Qed.

Lemma raises_only_raise {A} (P : exn -> Prop) e : P e -> raises_only P (@raise A e).
Proof. intros He w e' w' H. inversion H. now subst. Qed.

Lemma raises_only_time P : raises_only P time_time.
Proof. intros w e w' H. inversion H. Qed.

Lemma raises_only_bind {A B} P (m : M A) (k : A -> M B) :
  raises_only P m -> (forall a, raises_only P (k a)) -> raises_only P (bind m k).
Proof.
  intros Hm Hk w e w' H.
  apply bind_inv in H as [(a & w1 & H1 & H2) | (e' & H1 & H2)].
  - eapply Hk; eassumption.
  - inversion H2; subst. eapply Hm; eassumption.
Qed.

Lemma raises_only_try {A} P (m : M A) handler :
  (forall e, raises_only P (handler e)) -> raises_only P (try_except m handler).
Proof.
  intros Hh w e w' H.
  apply try_except_inv in H as [(a & H1 & H2) | (e' & w1 & H1 & H2)].
  - discriminate.
  - eapply Hh; eassumption.
Qed.

Lemma returns_ret {A} (a : A) : returns (ret a).
Proof. intros w. now exists a, w. Qed.

Lemma returns_time : returns time_time.
Proof. intros w. now exists (clock w), w. Qed.

Lemma returns_bind {A B} (m : M A) (k : A -> M B) :
  returns m -> (forall a, returns (k a)) -> returns (bind m k).
Proof.
  intros Hm Hk w. destruct (Hm w) as (a & w1 & H1).
  destruct (Hk a w1) as (b & w2 & H2). exists b, w2.
  now rewrite (bind_ok _ _ _ _ _ H1).
Qed.

Lemma returns_try {A} (m : M A) handler :
  (forall e, returns (handler e)) -> returns (try_except m handler).
Proof.
  intros Hh w. unfold try_except. destruct (m w) as [[a | e] w1].
  - now exists a, w1.
  - apply Hh.
Qed.

End MonadFacts.

Ltac frame_step :=
  match goal with
  | |- Sys.preserves _ (Sys.bind _ _) => apply preserves_bind; [assumption | | intros ?]
  | |- Sys.preserves _ (Sys.try_except _ _) => apply preserves_try; [assumption | | intros ?]
  | |- Sys.preserves _ (Sys.ret _) => apply preserves_ret; assumption
  | |- Sys.preserves _ (Sys.raise _) => apply preserves_raise; assumption
  | |- Sys.preserves _ Sys.time_time => apply preserves_time; assumption
  | |- Sys.preserves _ (if ?b then _ else _) => destruct b
  | |- Sys.preserves _ (match ?x with _ => _ end) => destruct x
  | |- Sys.preserves _ _ => solve [eauto]
  | |- Sys.preserves _ _ => progress cbv zeta
  end.

Ltac frame := repeat frame_step.

Ltac raises_step :=
  match goal with
  | |- Sys.raises_only _ (Sys.bind _ _) => apply raises_only_bind; [| intros ?]
  | |- Sys.raises_only _ (Sys.try_except _ _) => apply raises_only_try; intros ?
  | |- Sys.raises_only _ (Sys.ret _) => apply raises_only_ret
  | |- Sys.raises_only _ (Sys.raise _) => apply raises_only_raise
  | |- Sys.raises_only _ Sys.time_time => apply raises_only_time
  | |- Sys.raises_only _ (if ?b then _ else _) => destruct b
  | |- Sys.raises_only _ (match ?x with _ => _ end) => destruct x
  | |- Sys.raises_only _ _ => solve [eauto]
  | |- Sys.raises_only _ _ => progress cbv zeta
  end.

Ltac raises := repeat raises_step.

(* ================================================================== *)
(** * Facts about the video processor                                   *)
(* ================================================================== *)

Section Frame.
Import Sys video_processor.
Variable h : Host.
Context (R : relation World) `{!PreOrder R}.
Hypothesis R_run : forall c t, preserves R (subprocess_run h c t).
Hypothesis R_write : forall p ls, preserves R (write_lines p ls).
Hypothesis R_unlink : forall p, preserves R (unlink p).


Lemma get_media_duration_preserves p : preserves R (get_media_duration h p).
Proof. unfold get_media_duration. frame. Qed.

Lemma get_video_resolution_preserves p : preserves R (get_video_resolution h p).
Proof. unfold get_video_resolution. frame. Qed.

Lemma scale_preserves i o q : preserves R (scale_video_to_1080p h i o q).
Proof.
  pose proof get_video_resolution_preserves.
  unfold scale_video_to_1080p. frame.
Qed.

Lemma combine_preserves v a o q : preserves R (combine_video_audio h v a o q).
Proof. unfold combine_video_audio. frame. Qed.

Lemma loops_needed_preserves a v : preserves R (loops_needed a v).
Proof. unfold loops_needed. frame. Qed.

Lemma loop_preserves v a o q : preserves R (loop_video_to_match_audio h v a o q).
Proof.
  pose proof scale_preserves. pose proof get_media_duration_preserves.
  pose proof combine_preserves. pose proof loops_needed_preserves.
  unfold loop_video_to_match_audio. frame.
Qed.

Lemma single_task_preserves t : preserves R (process_single_video_task h t).
Proof.
  pose proof loop_preserves. unfold process_single_video_task. frame.
Qed.

End Frame.

Section Primitives.
Import Sys video_processor Spec.
Variable h : Host.

Global Instance extends_preorder : PreOrder extends.
Proof.
  split.
  - intros w. exists []. now rewrite app_nil_r.
  - intros w1 w2 w3 [e1 H1] [e2 H2]. exists (e1 ++ e2). now rewrite H2, H1, app_assoc.
Qed.

Lemma subprocess_run_inv c t w r w' :
  subprocess_run h c t w = (r, w') ->
  trace w' = trace w ++ [Ran c] /\
  match r with
  | Ok cp => fs w' = if returncode cp =? 0 then fs w ∪ output_of c else fs w
  | Raise e => fs w' = fs w /\ has_message e
  end.
Proof.
  unfold subprocess_run. destruct (spawn h c w) as [[cp | | prog] dt]; intros H;
    inversion H; subst; clear H.
  - destruct (returncode cp =? 0); simpl; auto.
  - simpl. repeat split. discriminate.
  - simpl. repeat split. discriminate.
Qed.

Lemma extends_run c t : preserves extends (subprocess_run h c t).
Proof. intros w r w' H. apply subprocess_run_inv in H as [H _]. now exists [Ran c]. Qed.

Lemma extends_write p ls : preserves extends (write_lines p ls).
Proof. intros w r w' H. inversion H. now exists [Wrote p ls]. Qed.

Lemma extends_unlink p : preserves extends (unlink p).
Proof.
  intros w r w' H. unfold unlink in H. case_bool_decide; inversion H; subst.
  - now exists [Unlinked p].
  - reflexivity.
Qed.

Lemma message_run c t : raises_only has_message (subprocess_run h c t).
Proof. intros w e w' H. now apply subprocess_run_inv in H as [_ [_ H]]. Qed.

Lemma message_unlink p : raises_only has_message (unlink p).
Proof.
  intros w e w' H. unfold unlink in H. case_bool_decide; inversion H. discriminate.
Qed.

Lemma message_write p ls : raises_only has_message (write_lines p ls).
Proof. intros w e w' H. inversion H. Qed.

Lemma probe_inv (c : Cmd) t w r w' :
  output_of c = ∅ ->
  subprocess_run h c t w = (r, w') ->
  fs w' = fs w /\ trace w' = trace w ++ [Ran c].
Proof.
  intros Hc H. apply subprocess_run_inv in H as [Ht Hf]. split; [| exact Ht].
  destruct r as [cp | e]; [| tauto].
  rewrite Hf, Hc. destruct (_ =? _); [apply union_empty_r_L | reflexivity].
Qed.

Lemma get_media_duration_inv p w r w' :
  get_media_duration h p w = (r, w') ->
  fs w' = fs w /\ trace w' = trace w ++ [Ran (FfprobeDuration p)].
Proof.
  unfold get_media_duration. intros H.
  apply bind_inv in H as [(cp & w1 & H1 & H2) | (e & H1 & _)].
  - apply probe_inv in H1 as [Hf Ht]; [| reflexivity].
    destruct (negb _); [| destruct (float_of_string _ _)]; inversion H2; subst; auto.
  - now apply probe_inv in H1.
Qed.

Lemma get_video_resolution_inv p w r w' :
  get_video_resolution h p w = (r, w') ->
  fs w' = fs w /\ trace w' = trace w ++ [Ran (FfprobeResolution p)].
Proof.
  unfold get_video_resolution. intros H.
  apply bind_inv in H as [(cp & w1 & H1 & H2) | (e & H1 & _)].
  - apply probe_inv in H1 as [Hf Ht]; [| reflexivity].
    destruct (negb _); [inversion H2; subst; auto |].
    destruct (map _ _) as [| [?|] [| [?|] [| ? ?]]]; inversion H2; subst; auto.
  - now apply probe_inv in H1.
Qed.

Lemma scale_inv input output q w p w' :
  scale_video_to_1080p h input output q w = (Ok p, w') ->
  (p = input /\ fs w' = fs w) \/ (p = output /\ fs w' = fs w ∪ {[ output ]}).
Proof.
  unfold scale_video_to_1080p. intros H.
  apply bind_inv in H as [([wd ht] & w1 & H1 & H2) | (e & _ & ?)]; [| discriminate].
  apply get_video_resolution_inv in H1 as [Hf _].
  destruct (_ && _).
  - inversion H2; subst. left. auto.
  - apply bind_inv in H2 as [(cp & w2 & H2 & H3) | (e & _ & ?)]; [| discriminate].
    apply subprocess_run_inv in H2 as [_ H2].
    destruct (returncode cp =? 0); simpl in H3; inversion H3; subst.
    right. split; [reflexivity |]. now rewrite H2, Hf.
Qed.

Lemma combine_inv v a o q w r w' :
  combine_video_audio h v a o q w = (r, w') ->
  trace w' = trace w ++ [Ran (FfmpegCombine v a o (quality_settings_get q)
                                (String.eqb q "maximum_quality"))] /\
  match r with
  | Ok x => x = o /\ fs w' = fs w ∪ {[ o ]}
  | Raise _ => True
  end.
Proof.
  unfold combine_video_audio. intros H.
  apply bind_inv in H as [(cp & w1 & H1 & H2) | (e & H1 & ->)].
  - apply subprocess_run_inv in H1 as [Ht Hf].
    destruct (returncode cp =? 0); simpl in H2; inversion H2; subst; auto.
  - now apply subprocess_run_inv in H1 as [Ht _].
Qed.


Lemma loop_raises_with_message v a o q :
  raises_only has_message (loop_video_to_match_audio h v a o q).
Proof.
  pose proof message_run. pose proof message_unlink. pose proof message_write.
  unfold loop_video_to_match_audio, scale_video_to_1080p, get_video_resolution,
    get_media_duration, combine_video_audio, loops_needed.
  raises; discriminate.
Qed.

End Primitives.

Section DurationMatcher.
Import Sys video_processor Spec.
Variable h : Host.

(** The first steps of [loop_video_to_match_audio], up to the comparison
    of the two durations. *)
Lemma loop_after_probes video audio out preset w p v a w1 w2 w3 :
  scale_video_to_1080p h video (scaled_path video out) preset w = (Ok p, w1) ->
  get_media_duration h p w1 = (Ok v, w2) ->
  get_media_duration h audio w2 = (Ok a, w3) ->
  exists k_direct k_loop,
    loop_video_to_match_audio h video audio out preset w =
      (if Qle_bool a v then bind (combine_video_audio h p audio out preset) k_direct
       else bind (loops_needed a v) k_loop) w3 /\
    k_direct = (fun result =>
      (if negb (String.eqb p video)
       then try_except (unlink p) (fun _ => ret tt) else ret tt) ;;;
      now <- time_time ;; ret (result, (now - clock w)%Q)) /\
    forall loops,
      exists tail,
        k_loop loops = (write_lines (path_join (path_parent out) "concat_list.txt")
                          (concat_lines h p loops) ;;; tail) /\
        preserves extends tail.
Proof.
  intros H1 H2 H3. unfold loop_video_to_match_audio.
  rewrite (bind_ok time_time _ w (clock w) w eq_refl). cbv zeta.
  fold (scaled_path video out).
  rewrite (bind_ok _ _ _ _ _ H1), (bind_ok _ _ _ _ _ H2), (bind_ok _ _ _ _ _ H3).
  eexists _, _. split; [destruct (Qle_bool a v); reflexivity |].
  split; [reflexivity |].
  intros loops. eexists. split; [reflexivity |].
  pose proof (combine_preserves h extends (extends_run h)).
  pose proof (extends_run h). pose proof extends_unlink.
  assert (PreOrder extends) by typeclasses eauto.
  frame.
Qed.

End DurationMatcher.

Section DurationMatcherClaims.
Import Sys video_processor Spec.
Variable h : Host.

(** The number of copies for a longer audio, when the quotient does not
    overflow. *)
Lemma loops_needed_finite (a v : Q) :
  (0 < v)%Q -> Py.is_finite (Py.truediv a v) = true ->
  loops_needed a v = ret (Py.int_of_float (Py.truediv a v) + 1).
Proof.
  intros Hv Hfin. unfold loops_needed.
  destruct (Qeq_bool v 0) eqn:E.
  - apply Qeq_bool_iff in E. rewrite E in Hv. now apply Qlt_irrefl in Hv.
  - cbv zeta. now rewrite Hfin.
Qed.

(** C1, amended. When the audio is longer than the (scaled) video, both
    durations are positive and their float quotient is finite, the concat
    list written by the duration matcher repeats the line of the video
    [int(audio / video) + 1] times, the division being that of the floats.
    That number is at least 1; it is [floor(audio / video) + 1] or, when
    the quotient is rounded up to the next integer, one more; it is 3 for
    a video of 10 seconds and an audio of 25 seconds. *)
Theorem loop_count_is_float_quotient_plus_one video audio out preset w p v a w1 w2 w3 :
  scale_video_to_1080p h video (scaled_path video out) preset w = (Ok p, w1) ->
  get_media_duration h p w1 = (Ok v, w2) ->
  get_media_duration h audio w2 = (Ok a, w3) ->
  (0 < v)%Q -> (v < a)%Q -> Py.is_finite (Py.truediv a v) = true ->
  let loops := Py.int_of_float (Py.truediv a v) + 1 in
  1 <= loops /\
  ((a / v < 2 ^ 53)%Q -> Qfloor (a / v) + 1 <= loops <= Qfloor (a / v) + 2) /\
  ((v == 10)%Q -> (a == 25)%Q -> loops = 3) /\
  exists rest,
    trace (snd (loop_video_to_match_audio h video audio out preset w)) =
    trace w3 ++
      Wrote (path_join (path_parent out) "concat_list.txt")
        (repeat ("file '" ++ resolve h p ++ "'")%string (Z.to_nat loops)) :: rest.
Proof.
  intros H1 H2 H3 Hv Ha Hfin loops.
  assert (Hq : (1 < a / v)%Q).
  { apply Qlt_shift_div_l; [exact Hv | lra]. }
  assert (Hr : (0 <= Py.truediv a v)%Q) by (apply fround_nonneg; lra).
  assert (Hloops : loops = Qfloor (Py.truediv a v) + 1).
  { unfold loops. now rewrite int_of_float_floor. }
  split; [rewrite Hloops; pose proof (floor_nonneg _ Hr); lia |].
  split.
  { intros Hbig. rewrite Hloops. destruct (floor_bounds (a / v)) as [Hlo Hhi].
    destruct (fround_integer (a / v) (Qfloor (a / v))) as [Hge _]; [lra | exact Hbig |].
    destruct (fround_integer (a / v) (Qfloor (a / v) + 1)) as [_ Hle]; [lra | exact Hbig |].
    specialize (Hge Hlo).
    assert (Hle' : (Py.truediv a v <= inject_Z (Qfloor (a / v) + 1))%Q).
    { apply Hle. rewrite inject_Z_plus. change (inject_Z 1) with 1%Q. lra. }
    apply Qfloor_resp_le in Hge, Hle'. rewrite Qfloor_Z in Hge, Hle'.
    unfold Py.truediv in *. lia. }
  split.
  { intros Ev Ea. rewrite Hloops.
    assert (E : (a / v == inject_Z 5 * 2 ^ (-1))%Q) by (rewrite Ev, Ea; reflexivity).
    assert (Ex : (Py.truediv a v == a / v)%Q).
    { apply (fround_exact (a / v) 5 (-1)); [lra | | lia | exact E].
      rewrite E. reflexivity. }
    rewrite Ex, E. reflexivity. }
  destruct (loop_after_probes h video audio out preset w p v a w1 w2 w3 H1 H2 H3)
    as (kd & kl & -> & _ & Hk).
  assert (Qle_bool a v = false) as ->.
  { destruct (Qle_bool a v) eqn:E; [| reflexivity].
    apply Qle_bool_iff in E. exfalso. exact (Qlt_not_le _ _ Ha E). }
  rewrite (loops_needed_finite a v Hv Hfin). fold loops.
  rewrite (bind_ok (ret loops) kl w3 loops w3 eq_refl).
  destruct (Hk loops) as (tail & -> & Htail).
  erewrite bind_ok by reflexivity.
  match goal with |- context [tail ?w] => destruct (tail w) as [r w'] eqn:E end.
  apply Htail in E as [evs E]. simpl in *. exists evs.
  rewrite E. now rewrite <- app_assoc.
Qed.

(** C3. When the audio is not longer than the (scaled) video, equal
    durations included, the duration matcher runs the combine command
    once and nothing else but the removal of the scaled file: no concat
    list is written, no concat or trim command is run. *)
Theorem shorter_or_equal_audio_combines_directly video audio out preset w p v a w1 w2 w3 :
  scale_video_to_1080p h video (scaled_path video out) preset w = (Ok p, w1) ->
  get_media_duration h p w1 = (Ok v, w2) ->
  get_media_duration h audio w2 = (Ok a, w3) ->
  (a <= v)%Q ->
  exists cleanup,
    trace (snd (loop_video_to_match_audio h video audio out preset w)) =
    trace w3 ++
      Ran (FfmpegCombine p audio out (quality_settings_get preset)
             (String.eqb preset "maximum_quality")) :: cleanup /\
    (cleanup = [] \/ cleanup = [Unlinked p]).
Proof.
  intros H1 H2 H3 Hav.
  destruct (loop_after_probes h video audio out preset w p v a w1 w2 w3 H1 H2 H3)
    as (kd & kl & -> & -> & _).
  assert (Qle_bool a v = true) as -> by now apply Qle_bool_iff.
  destruct (combine_video_audio h p audio out preset w3) as [[r | e] w4] eqn:E;
    pose proof (combine_inv h _ _ _ _ _ _ _ E) as [Ht _].
  - rewrite (bind_ok _ _ _ _ _ E).
    destruct (negb (String.eqb p video)).
    + unfold bind, try_except, unlink, time_time, ret.
      case_bool_decide; simpl; rewrite Ht.
      * exists [Unlinked p]. rewrite <- app_assoc. auto.
      * exists []. auto.
    + simpl. rewrite Ht. exists []. auto.
  - rewrite (bind_raise _ _ _ _ _ E). simpl. rewrite Ht. exists []. auto.
Qed.

End DurationMatcherClaims.

(* ================================================================== *)
(** * Facts about paths and temporary files                             *)
(* ================================================================== *)

Section PathFacts.
Import Sys Spec.

Lemma append_nil_l (s : string) : (EmptyString ++ s)%string = s.
Proof. reflexivity. Qed.

Lemma append_cons_l (c : ascii) (s t : string) :
  (String c s ++ t)%string = String c (s ++ t)%string.
Proof. reflexivity. Qed.

Lemma length_append (s t : string) :
  String.length (s ++ t) = (String.length s + String.length t)%nat.
Proof.
  induction s as [| c s IH]; [reflexivity |].
  rewrite append_cons_l. simpl. now rewrite IH.
Qed.

Lemma append_inj_l (d x y : string) : (d ++ x = d ++ y)%string -> x = y.
Proof. induction d as [| c d IH]; simpl; intros H; [exact H | injection H as H; auto]. Qed.

Lemma path_join_inj (d x y : string) : path_join d x = path_join d y -> x = y.
Proof.
  unfold path_join. destruct (String.eqb d "."); [auto |].
  destruct (String.eqb d "/"); intros H.
  - now injection H.
  - apply append_inj_l in H. now injection H.
Qed.

Lemma rsplit_slash_name (p d n : string) :
  rsplit_slash p = Some (d, n) -> rsplit_slash n = None.
Proof.
  revert d n. induction p as [| c p IH]; simpl; intros d n H; [discriminate |].
  destruct (rsplit_slash p) as [[d' n'] |] eqn:E.
  - injection H as _ <-. eauto.
  - destruct (Ascii.eqb c "/"); [| discriminate]. now injection H as _ <-.
Qed.

Lemma path_name_no_slash (p : string) : rsplit_slash (path_name p) = None.
Proof.
  unfold path_name. destruct (rsplit_slash p) as [[d n] |] eqn:E; [| exact E].
  eapply rsplit_slash_name; eassumption.
Qed.

Lemma rsplit_slash_append (x n : string) :
  rsplit_slash n = None -> rsplit_slash (x ++ String "/" n) = Some (x, n).
Proof.
  intros Hn. induction x as [| c x IH].
  - rewrite append_nil_l. simpl. now rewrite Hn.
  - rewrite append_cons_l. simpl. now rewrite IH.
Qed.

Lemma path_name_join (d n : string) :
  rsplit_slash n = None -> path_name (path_join d n) = n.
Proof.
  intros Hn. unfold path_join, path_name.
  destruct (String.eqb d "."); [now rewrite Hn |].
  destruct (String.eqb d "/").
  - rewrite append_cons_l, append_nil_l. simpl. now rewrite Hn.
  - rewrite append_cons_l, append_nil_l. now rewrite rsplit_slash_append.
Qed.

Lemma scaled_path_fresh (video out : string) : scaled_path video out <> video.
Proof.
  intros H. apply (f_equal path_name) in H. unfold scaled_path in H.
  rewrite path_name_join in H.
  - apply (f_equal String.length) in H.
    rewrite length_append in H. simpl in H. lia.
  - repeat rewrite append_cons_l. rewrite append_nil_l. simpl.
    now rewrite path_name_no_slash.
Qed.

End PathFacts.

Section Cleanup.
Import Sys video_processor Spec.
Variable h : Host.

Lemma temporaries_distinct (video out : string) :
  let c := path_join (path_parent out) "concat_list.txt" in
  let l := path_join (path_parent out) "temp_looped.mp4" in
  let t := path_join (path_parent out) "temp_trimmed.mp4" in
  let s := scaled_path video out in
  c <> l /\ c <> t /\ c <> s /\ l <> t /\ l <> s /\ t <> s.
Proof.
  unfold scaled_path. cbv zeta.
  repeat split; intros Hx; apply path_join_inj in Hx; discriminate.
Qed.

Global Instance grows_preorder : PreOrder grows.
Proof.
  split.
  - intros w. split; [reflexivity |]. exists []. split; [now rewrite app_nil_r | constructor].
  - intros w1 w2 w3 [F1 (e1 & T1 & N1)] [F2 (e2 & T2 & N2)]. split.
    + now transitivity (fs w2).
    + exists (e1 ++ e2). split; [now rewrite T2, T1, app_assoc | now apply Forall_app].
Qed.

Lemma grows_run c t : preserves grows (subprocess_run h c t).
Proof.
  intros w r w' H. apply subprocess_run_inv in H as [Ht Hf]. split.
  - destruct r as [cp | e]; [| destruct Hf as [-> _]; reflexivity].
    rewrite Hf. destruct (_ =? _); set_solver.
  - exists [Ran c]. split; [exact Ht | repeat constructor].
Qed.

Lemma grows_write p ls : preserves grows (write_lines p ls).
Proof.
  intros w r w' H. inversion H; subst; clear H. split; simpl; [set_solver |].
  exists [Wrote p ls]. split; [reflexivity | repeat constructor].
Qed.

Lemma raise_grows_preserves {A} (m : M A) : preserves grows m -> raise_grows m.
Proof. intros H w e w' E. eapply H; eassumption. Qed.

Lemma raise_grows_never {A} (m : M A) :
  raises_only (fun _ => False) m -> raise_grows m.
Proof. intros H w e w' E. destruct (H _ _ _ E). Qed.

Lemma raise_grows_bind {A B} (m : M A) (k : A -> M B) :
  preserves grows m -> (forall a, raise_grows (k a)) -> raise_grows (bind m k).
Proof.
  intros Hm Hk w e w' H.
  apply bind_inv in H as [(a & w1 & H1 & H2) | (e' & H1 & _)].
  - transitivity w1; [eapply Hm | eapply Hk]; eassumption.
  - eapply Hm; eassumption.
Qed.

(** When the duration matcher raises, it has not cleaned up. *)
Lemma loop_raise_grows video audio out preset :
  raise_grows (loop_video_to_match_audio h video audio out preset).
Proof.
  assert (PreOrder grows) by typeclasses eauto.
  pose proof grows_run as Hrun.
  pose proof (scale_preserves h grows Hrun) as Hscale.
  pose proof (get_media_duration_preserves h grows Hrun) as Hdur.
  pose proof (combine_preserves h grows Hrun) as Hcomb.
  pose proof (loops_needed_preserves grows) as Hloops.
  pose proof grows_write as Hwrite.
  unfold loop_video_to_match_audio.
  apply raise_grows_bind; [apply preserves_time; assumption | intros start].
  cbv zeta.
  apply raise_grows_bind; [apply Hscale | intros p].
  apply raise_grows_bind; [apply Hdur | intros v].
  apply raise_grows_bind; [apply Hdur | intros a].
  destruct (Qle_bool a v).
  - apply raise_grows_bind; [apply Hcomb | intros res].
    apply raise_grows_never. raises.
  - apply raise_grows_bind; [apply Hloops | intros loops].
    apply raise_grows_bind; [apply Hwrite | intros []].
    apply raise_grows_bind; [apply Hrun | intros cp1].
    destruct (negb _); [apply raise_grows_preserves, preserves_raise; assumption |].
    apply raise_grows_bind; [apply Hrun | intros cp2].
    destruct (negb _); [apply raise_grows_preserves, preserves_raise; assumption |].
    apply raise_grows_bind; [apply Hcomb | intros res].
    apply raise_grows_never. raises.
Qed.

(** C2. The cleanup is not guaranteed. Whenever the duration matcher
    raises, at whatever step, it has run no removal at all: the code that
    removes the intermediate files sits at the end of the two paths that
    return. So on a machine where the concat command fails, a 720p video
    under a longer audio leaves the scaled video and the concat list
    behind. *)
Theorem temporaries_are_left_when_the_matcher_raises :
  (forall video audio out preset w e w',
     loop_video_to_match_audio h video audio out preset w = (Raise e, w') ->
     exists evs, trace w' = trace w ++ evs /\ Forall not_unlink evs) /\
  (let run := loop_video_to_match_audio Scenarios.broken_concat "/in/small.mp4"
                "/in/a25.mp3" "/out/o.mp4" "high_quality" Scenarios.empty_world in
   fst run = Raise (RuntimeError "Video looping failed: Conversion failed!") /\
   elements (fs Scenarios.empty_world) = [] /\
   elements (fs (snd run)) =
     ["/out/scaled_input_small.mp4"; "/out/concat_list.txt"]%string /\
   temporaries "/in/small.mp4" "/out/o.mp4" =
     ["/out/concat_list.txt"; "/out/temp_looped.mp4"; "/out/temp_trimmed.mp4";
      "/out/scaled_input_small.mp4"]%string).
Proof.
  split.
  - intros video audio out preset w e w' H.
    exact (proj2 (loop_raise_grows video audio out preset w e w' H)).
  - repeat split; vm_compute; reflexivity.
Qed.

End Cleanup.

(* ================================================================== *)
(** * Facts about the scheduler                                          *)
(* ================================================================== *)

Section Scheduler.
Import Sys video_processor Spec.
Variable h : Host.

Global Instance same_pools_preorder : PreOrder same_pools.
Proof.
  split; [intros w; reflexivity |].
  intros w1 w2 w3 H1 H2. unfold same_pools in *. congruence.
Qed.

Lemma pools_run c t : preserves same_pools (subprocess_run h c t).
Proof.
  intros w r w' H. apply subprocess_run_inv in H as [H _].
  unfold same_pools, pools. rewrite H, omap_app. simpl. apply app_nil_r.
Qed.

Lemma pools_write p ls : preserves same_pools (write_lines p ls).
Proof.
  intros w r w' H. inversion H. unfold same_pools, pools. simpl.
  rewrite omap_app. simpl. apply app_nil_r.
Qed.

Lemma pools_unlink p : preserves same_pools (unlink p).
Proof.
  intros w r w' H. unfold unlink in H. case_bool_decide; inversion H; subst.
  - unfold same_pools, pools. simpl. rewrite omap_app. simpl. apply app_nil_r.
  - reflexivity.
Qed.

Lemma check_gpu_returns w :
  exists b w', check_gpu_available h w = (Ok b, w') /\
               trace w' = trace w ++ [Ran FfmpegEncoders] /\ fs w' = fs w.
Proof.
  unfold check_gpu_available, try_except, bind.
  destruct (subprocess_run h FfmpegEncoders 10 w) as [[cp | e] w1] eqn:E;
    apply probe_inv in E as [Hf Ht]; try reflexivity; eauto.
Qed.

Lemma check_gpu_present w :
  gpu_present h -> exists w', check_gpu_available h w = (Ok true, w').
Proof.
  intros Hg. destruct (Hg w) as (cp & dt & Hs & Hc).
  unfold check_gpu_available, try_except, bind, subprocess_run.
  rewrite Hs. destruct (returncode cp =? 0); rewrite Hc; eauto.
Qed.

Lemma single_task_spec task w :
  exists r w',
    process_single_video_task h task w = (Ok r, w') /\
    well_formed r /\
    inputs_of_result r = inputs_of_task task /\
    match loop_video_to_match_audio h (task_video_path task) (task_audio_path task)
            (task_output_path task)
            (default "high_quality"%string (task_quality_preset task)) w with
    | (Ok (p, _), _) => status r = success /\ output_path r = Some p
    | (Raise e, _) => status r = failed /\ output_path r = None /\
                      error r = Some (str_exn e) /\ str_exn e <> EmptyString
    end.
Proof.
  unfold process_single_video_task.
  rewrite (bind_ok time_time _ w (clock w) w eq_refl).
  unfold try_except.
  destruct (loop_video_to_match_audio h _ _ _ _ w) as [[[p pt] | e] w1] eqn:E.
  - rewrite (bind_ok _ _ _ _ _ E). simpl.
    eexists _, _. split; [reflexivity |]. split; [| auto].
    split; [eexists |]; reflexivity.
  - rewrite (bind_raise _ _ _ _ _ E). simpl.
    apply loop_raises_with_message in E.
    eexists _, _. split; [reflexivity |]. split; [| auto].
    split; [reflexivity |]. eexists. split; [reflexivity | exact E].
Qed.

Lemma submit_all_spec (tasks : list Task) : forall w,
  exists fts w',
    mapM (submit_task h) tasks w = (Ok fts, w') /\
    map snd fts = tasks /\ Forall good_future fts /\ same_pools w w'.
Proof.
  induction tasks as [| task tasks IH]; intros w.
  - exists [], w. split; [reflexivity |]. split; [reflexivity |].
    split; [constructor | reflexivity].
  - destruct (single_task_spec task w) as (r & w1 & Hr & Hwf & Hin & _).
    destruct (IH w1) as (fts & w2 & Hm & Hl & Hf & Hp).
    exists ((Ok r, task) :: fts), w2. simpl.
    unfold submit_task at 1, submit, bind. rewrite Hr. simpl.
    fold (@bind (list (Result TaskResult * Task)) (list (Result TaskResult * Task))).
    unfold bind. rewrite Hm. simpl.
    split; [reflexivity |]. split; [now rewrite Hl |]. split.
    + constructor; [exists r; auto | exact Hf].
    + transitivity w1; [| exact Hp].
      eapply (single_task_preserves h same_pools pools_run pools_write pools_unlink).
      exact Hr.
Qed.

Lemma foldM_collect (completed : list (Result TaskResult * Task)) : forall acc w,
  foldM collect acc completed w = (Ok (acc ++ map result_of completed), w).
Proof.
  induction completed as [| [[r | e] task] completed IH]; intros acc w; simpl.
  - now rewrite app_nil_r.
  - unfold bind at 1. simpl. rewrite IH. now rewrite <- app_assoc.
  - unfold bind at 1. simpl. rewrite IH. now rewrite <- app_assoc.
Qed.

Lemma take_in_order_perm {A} (order : list nat) : forall pending : list A,
  take_in_order order pending ≡ₚ pending.
Proof.
  induction order as [| i order IH]; intros pending; simpl; [reflexivity |].
  destruct (pending !! i) as [x |] eqn:E; [| apply IH].
  rewrite IH. symmetry. now apply delete_Permutation.
Qed.

Lemma result_of_well_formed ft : good_future ft -> well_formed (result_of ft).
Proof. destruct ft as [f task]. intros (r & Hr & Hwf & _). simpl in Hr. now subst. Qed.

Lemma result_of_inputs ft :
  good_future ft -> inputs_of_result (result_of ft) = inputs_of_task (snd ft).
Proof. destruct ft as [f task]. intros (r & Hr & _ & Hin). simpl in Hr. now subst. Qed.

Lemma results_inputs (fts : list (Result TaskResult * Task)) :
  Forall good_future fts ->
  map inputs_of_result (map result_of fts) = map inputs_of_task (map snd fts).
Proof.
  induction 1 as [| ft fts Hft _ IH]; simpl; [reflexivity |].
  now rewrite IH, result_of_inputs.
Qed.

Lemma pools_snoc_ran evs c : pools (evs ++ [Ran c]) = pools evs.
Proof. unfold pools. rewrite omap_app. simpl. apply app_nil_r. Qed.

(** What [process_videos_parallel] does, in one equation. *)
Lemma parallel_run tasks mw preset w :
  exists b wg,
    check_gpu_available h w = (Ok b, wg) /\
    if b && (0 <? Py.min_Z mw 6) then
      exists fts w2,
        map inputs_of_task (map snd fts) = map inputs_of_task tasks /\
        Forall good_future fts /\
        pools (trace w2) = pools (trace w) ++ [Py.min_Z mw 6] /\
        process_videos_parallel h tasks mw preset w =
          (Ok (let results :=
                 map result_of (take_in_order (completion_order h w2) fts) in
               {| results := results;
                  batch_total_time := (clock w2 - clock w)%Q;
                  successful_count := count_success results;
                  failed_count := Z.of_nat (length results) - count_success results;
                  processing_mode := None |}), w2)
    else exists e w',
        process_videos_parallel h tasks mw preset w = (Raise e, w') /\
        scheduler_error e.
Proof.
  destruct (check_gpu_returns w) as (b & wg & Hg & Ht & _).
  exists b, wg. split; [exact Hg |].
  unfold process_videos_parallel.
  rewrite (bind_ok time_time _ w (clock w) w eq_refl), (bind_ok _ _ _ _ _ Hg).
  destruct b; simpl; [| eexists _, _; split; [reflexivity | now left]].
  unfold bind at 1, ThreadPoolExecutor.
  destruct (Z.ltb_spec 0 (Py.min_Z mw 6)) as [Hpos | Hneg].
  - destruct (Z.leb_spec (Py.min_Z mw 6) 0) as [? | _]; [lia |].
    cbv beta iota.
    match goal with |- context [mapM ?f ?l] =>
      change (mapM f l) with (mapM (submit_task h) l);
      destruct (submit_all_spec l (log_event (PoolCreated (Py.min_Z mw 6)) wg))
        as (fts & w2 & Hm & Hl & Hf & Hp)
    end.
    exists fts, w2.
    split; [rewrite Hl, map_map; reflexivity |]. split; [exact Hf |]. split.
    + rewrite Hp. simpl. unfold pools at 1. rewrite omap_app. simpl.
      fold (pools (trace wg)). now rewrite Ht, pools_snoc_ran.
    + rewrite (bind_ok _ _ _ _ _ Hm).
      unfold as_completed. erewrite bind_ok by reflexivity.
      rewrite (bind_ok _ _ _ _ _ (foldM_collect _ _ _)).
      rewrite (bind_ok time_time _ w2 (clock w2) w2 eq_refl).
      reflexivity.
  - destruct (Z.leb_spec (Py.min_Z mw 6) 0) as [_ | ?]; [| lia].
    eexists _, _. split; [reflexivity | now right].
Qed.

Lemma parallel_spec tasks mw preset w s w' :
  process_videos_parallel h tasks mw preset w = (Ok s, w') ->
  accounts_for tasks s /\ pools (trace w') = pools (trace w) ++ [Py.min_Z mw 6].
Proof.
  intros H. destruct (parallel_run tasks mw preset w) as (b & wg & _ & Hrun).
  destruct (b && _).
  - destruct Hrun as (fts & w2 & Hl & Hf & Hp & Hrun).
    rewrite Hrun in H. inversion H; subst; clear H. split; [| exact Hp].
    unfold accounts_for. simpl.
    pose proof (take_in_order_perm (completion_order h w') fts) as Hperm.
    split; [| split; [| split]]; try reflexivity.
    + rewrite Hperm, results_inputs by exact Hf. now rewrite Hl.
    + apply Forall_fmap. rewrite Hperm.
      eapply Forall_impl; [exact Hf |]. intros ft. apply result_of_well_formed.
  - destruct Hrun as (e & w2 & Hrun & _). rewrite Hrun in H. discriminate.
Qed.

Lemma parallel_raises tasks mw preset w e w' :
  process_videos_parallel h tasks mw preset w = (Raise e, w') -> scheduler_error e.
Proof.
  intros H. destruct (parallel_run tasks mw preset w) as (b & wg & _ & Hrun).
  destruct (b && _).
  - destruct Hrun as (fts & w2 & _ & _ & _ & Hrun). rewrite Hrun in H. discriminate.
  - destruct Hrun as (e' & w2 & Hrun & He). rewrite Hrun in H. now inversion H; subst.
Qed.

Lemma smart_raises tasks mw preset w e w' :
  process_videos_smart h tasks mw preset w = (Raise e, w') -> scheduler_error e.
Proof.
  unfold process_videos_smart.
  rewrite (bind_ok time_time _ w (clock w) w eq_refl).
  destruct (check_gpu_returns w) as (b & wg & Hg & _).
  rewrite (bind_ok _ _ _ _ _ Hg).
  destruct b; simpl; [| intros H; inversion H; now left].
  destruct tasks as [| task [| task2 rest]].
  - discriminate.
  - intros H.
    apply try_except_inv in H as [(a & _ & ?) | (e0 & w1 & _ & H)]; [discriminate |].
    unfold bind, time_time, ret in H. discriminate.
  - intros H.
    apply bind_inv in H as [(s0 & w1 & _ & H2) | (e' & H1 & He)].
    + discriminate.
    + inversion He; subst. eapply parallel_raises; eassumption.
Qed.

Lemma smart_spec tasks mw preset w s w' :
  process_videos_smart h tasks mw preset w = (Ok s, w') ->
  accounts_for tasks s.
Proof.
  unfold process_videos_smart.
  rewrite (bind_ok time_time _ w (clock w) w eq_refl).
  destruct (check_gpu_returns w) as (b & wg & Hg & _).
  rewrite (bind_ok _ _ _ _ _ Hg).
  destruct b; simpl; [| discriminate].
  destruct tasks as [| task [| task2 rest]].
  - intros H. inversion H; subst.
    split; [reflexivity |]. split; [constructor |]. split; reflexivity.
  - unfold try_except.
    match goal with |- context [loop_video_to_match_audio ?a ?b ?c ?d ?e] =>
      destruct (loop_video_to_match_audio a b c d e wg) as [[[p pt] | e0] w1] eqn:E
    end.
    + rewrite (bind_ok _ _ _ _ _ E). simpl. intros H. inversion H; subst.
      unfold accounts_for. simpl.
      split; [reflexivity |]. split; [| split; reflexivity].
      constructor; [| constructor]. split; [eexists |]; reflexivity.
    + rewrite (bind_raise _ _ _ _ _ E). simpl. intros H. inversion H; subst.
      apply loop_raises_with_message in E.
      unfold accounts_for. simpl.
      split; [reflexivity |]. split; [| split; reflexivity].
      constructor; [| constructor].
      split; [reflexivity |]. eexists. split; [reflexivity | exact E].
  - intros H.
    apply bind_inv in H as [(s0 & w1 & H1 & H2) | (? & ? & ?)]; [| discriminate].
    apply parallel_spec in H1 as [(Hl & Hf & Hs & Hc) _].
    inversion H2; subst. unfold accounts_for. simpl. auto.
Qed.

Lemma smart_returns tasks mw preset w :
  gpu_present h -> (1 <= mw) ->
  exists s w', process_videos_smart h tasks mw preset w = (Ok s, w').
Proof.
  intros Hgpu Hmw. unfold process_videos_smart.
  rewrite (bind_ok time_time _ w (clock w) w eq_refl).
  destruct (check_gpu_present w Hgpu) as (wg & Hg).
  rewrite (bind_ok _ _ _ _ _ Hg). simpl.
  destruct tasks as [| task [| task2 rest]].
  - eauto.
  - apply returns_try. intros e. apply returns_bind; [apply returns_time |].
    intros now_. apply returns_ret.
  - set (tasks := task :: task2 :: rest).
    destruct (parallel_run tasks mw preset wg) as (b & wg2 & Hg2 & Hrun).
    destruct (check_gpu_present wg Hgpu) as (wg2' & Hg2').
    rewrite Hg2' in Hg2. inversion Hg2; subst; clear Hg2.
    assert ((0 <? Py.min_Z mw 6) = true) as Hpos.
    { rewrite min_Z_spec. apply Z.ltb_lt. lia. }
    rewrite Hpos in Hrun. simpl in Hrun.
    destruct Hrun as (fts & w2 & _ & _ & _ & Hrun).
    rewrite (bind_ok _ _ _ _ _ Hrun). eauto.
Qed.

Lemma smart_pool tasks mw preset w s w' :
  (2 <= length tasks)%nat ->
  process_videos_smart h tasks mw preset w = (Ok s, w') ->
  pools (trace w') = pools (trace w) ++ [Z.min mw 6].
Proof.
  intros Hlen. unfold process_videos_smart.
  rewrite (bind_ok time_time _ w (clock w) w eq_refl).
  destruct (check_gpu_returns w) as (b & wg & Hg & Ht & _).
  rewrite (bind_ok _ _ _ _ _ Hg).
  destruct b; simpl; [| discriminate].
  destruct tasks as [| task [| task2 rest]]; simpl in Hlen; try lia.
  intros H.
  apply bind_inv in H as [(s0 & w1 & H1 & H2) | (? & ? & ?)]; [| discriminate].
  apply parallel_spec in H1 as [_ Hp]. inversion H2; subst.
  now rewrite Hp, Ht, pools_snoc_ran, min_Z_spec.
Qed.

(** The record of a worker reports the outcome of the duration matcher,
    and the worker leaves the world as the duration matcher left it. *)
Lemma single_task_reports task w :
  let run := loop_video_to_match_audio h (task_video_path task)
               (task_audio_path task) (task_output_path task)
               (default "high_quality"%string (task_quality_preset task)) w in
  exists r,
    process_single_video_task h task w = (Ok r, snd run) /\
    reports (fst run) task r.
Proof.
  cbv zeta. unfold process_single_video_task.
  rewrite (bind_ok time_time _ w (clock w) w eq_refl).
  unfold try_except.
  destruct (loop_video_to_match_audio h _ _ _ _ w) as [[[p pt] | e] w1] eqn:E.
  - rewrite (bind_ok _ _ _ _ _ E). simpl.
    eexists. split; [reflexivity |]. repeat split.
  - rewrite (bind_raise _ _ _ _ _ E). simpl.
    apply loop_raises_with_message in E.
    eexists. split; [reflexivity |]. repeat split. exact E.
Qed.

(** The tasks as [process_videos_parallel] prepares them. *)
Lemma submit_all_in_turn preset (tasks : list Task) : forall w,
  let prepare task :=
    {| task_video_path := task_video_path task;
       task_audio_path := task_audio_path task;
       task_output_path := task_output_path task;
       task_quality_preset := Some preset |} in
  exists fts w',
    mapM (submit_task h) (map prepare tasks) w = (Ok fts, w') /\
    ran_in_turn h preset w tasks (map result_of fts) w'.
Proof.
  intros w prepare. revert w.
  induction tasks as [| task tasks IH]; intros w.
  - exists [], w. split; [reflexivity | constructor].
  - destruct (single_task_reports (prepare task) w) as (r & Hr & Hrep).
    simpl in Hr, Hrep.
    set (run := loop_video_to_match_audio h (task_video_path task)
                  (task_audio_path task) (task_output_path task) preset w) in *.
    destruct (IH (snd run)) as (fts & w2 & Hm & Hturn).
    exists ((Ok r, prepare task) :: fts), w2. split.
    + simpl. unfold submit_task at 1, submit, bind. rewrite Hr. simpl.
      fold (@bind (list (Result TaskResult * Task)) (list (Result TaskResult * Task))).
      unfold bind. rewrite Hm. reflexivity.
    + simpl. apply ran_next; [| exact Hturn].
      destruct Hrep as (Hv & Ha & Hrep). split; [exact Hv |]. split; [exact Ha |].
      exact Hrep.
Qed.

(** [process_videos_parallel], once the encoder is found and the pool has
    a worker: the records are those of the tasks run in turn, in the order
    of completion. *)
Lemma parallel_in_turn tasks mw preset w wg s w' :
  check_gpu_available h w = (Ok true, wg) ->
  process_videos_parallel h tasks mw preset w = (Ok s, w') ->
  exists records,
    ran_in_turn h preset (log_event (PoolCreated (Py.min_Z mw 6)) wg) tasks records w' /\
    results s ≡ₚ records.
Proof.
  intros Hg H. unfold process_videos_parallel in H.
  rewrite (bind_ok time_time _ w (clock w) w eq_refl), (bind_ok _ _ _ _ _ Hg) in H.
  simpl in H. unfold bind at 1, ThreadPoolExecutor in H.
  destruct (Py.min_Z mw 6 <=? 0); [discriminate |].
  match type of H with context [mapM ?f ?l] =>
    change (mapM f l) with (mapM (submit_task h) l) in H
  end.
  destruct (submit_all_in_turn preset tasks (log_event (PoolCreated (Py.min_Z mw 6)) wg))
    as (fts & w2 & Hm & Hturn).
  cbv zeta in Hm. rewrite (bind_ok _ _ _ _ _ Hm) in H.
  unfold as_completed in H. erewrite bind_ok in H by reflexivity.
  rewrite (bind_ok _ _ _ _ _ (foldM_collect _ _ _)) in H.
  rewrite (bind_ok time_time _ w2 (clock w2) w2 eq_refl) in H.
  inversion H; subst; clear H. simpl.
  exists (map result_of fts). split; [exact Hturn |].
  apply fmap_Permutation, take_in_order_perm.
Qed.

(** Whatever the path, the records of a summary are those of the tasks
    run in turn. *)
Lemma smart_in_turn tasks mw preset w s w' :
  process_videos_smart h tasks mw preset w = (Ok s, w') ->
  exists records,
    ran_in_turn h preset (first_task_world h mw tasks w) tasks records w' /\
    results s ≡ₚ records.
Proof.
  unfold process_videos_smart, first_task_world.
  rewrite (bind_ok time_time _ w (clock w) w eq_refl).
  destruct (check_gpu_available h w) as [[gpu | e] wg] eqn:Hg;
    [rewrite (bind_ok _ _ _ _ _ Hg) | rewrite (bind_raise _ _ _ _ _ Hg); discriminate].
  destruct gpu; simpl; [| discriminate].
  destruct tasks as [| task [| task2 rest]].
  - intros H. inversion H; subst. exists []. split; [constructor | reflexivity].
  - unfold try_except.
    destruct (loop_video_to_match_audio h (task_video_path task) (task_audio_path task)
                (task_output_path task) preset wg) as [[[p pt] | e0] w1] eqn:E.
    + rewrite (bind_ok _ _ _ _ _ E). simpl. intros H. inversion H; subst. simpl.
      eexists. split; [| reflexivity].
      apply ran_next; rewrite E; [| constructor]. repeat split.
    + rewrite (bind_raise _ _ _ _ _ E). simpl. intros H. inversion H; subst. simpl.
      eexists. split; [| reflexivity].
      apply ran_next; rewrite E; [| constructor].
      apply loop_raises_with_message in E. repeat split. exact E.
  - intros H.
    apply bind_inv in H as [(s0 & w1 & H1 & H2) | (? & ? & ?)]; [| discriminate].
    inversion H2; subst; clear H2. simpl.
    destruct (check_gpu_available h wg) as [[gpu2 | e2] wg2] eqn:Hg2.
    + destruct gpu2.
      * exact (parallel_in_turn _ _ _ _ _ _ _ Hg2 H1).
      * exfalso. unfold process_videos_parallel in H1.
        rewrite (bind_ok time_time _ wg (clock wg) wg eq_refl),
          (bind_ok _ _ _ _ _ Hg2) in H1. discriminate.
    + exfalso. unfold process_videos_parallel in H1.
      rewrite (bind_ok time_time _ wg (clock wg) wg eq_refl),
        (bind_raise _ _ _ _ _ Hg2) in H1. discriminate.
Qed.

(** C7. A task never raises past the worker: [process_single_video_task]
    always returns a record, and the record reports the outcome of the
    duration matcher for the task: a success with the path returned when
    it returned, and when it raised a failure with the message of the
    exception, which is not empty, and no output path. With the encoder
    present and a positive number of workers the scheduler returns a
    summary, whatever the tasks did: on the single path as on the parallel
    one, its records are, in some order, those of the tasks run one after
    the other through the duration matcher, each task that raised having
    its failed record and each task that returned its success. The only
    exceptions that ever leave the scheduler are its own two: no encoder,
    no worker. *)
Theorem task_exceptions_become_failed_results tasks mw preset w :
  gpu_present h -> (1 <= mw) ->
  (forall task w0,
     let run := loop_video_to_match_audio h (task_video_path task)
                  (task_audio_path task) (task_output_path task)
                  (default "high_quality"%string (task_quality_preset task)) w0 in
     exists r,
       process_single_video_task h task w0 = (Ok r, snd run) /\
       reports (fst run) task r) /\
  (exists s w' records,
     process_videos_smart h tasks mw preset w = (Ok s, w') /\
     ran_in_turn h preset (first_task_world h mw tasks w) tasks records w' /\
     results s ≡ₚ records /\
     length (results s) = length tasks /\
     Forall well_formed (results s)) /\
  (forall tasks' mw' w0 e w1,
     process_videos_smart h tasks' mw' preset w0 = (Raise e, w1) ->
     scheduler_error e).
Proof.
  intros Hgpu Hmw. split; [| split]; [| | intros; eapply smart_raises; eassumption].
  - intros task w0. apply single_task_reports.
  - destruct (smart_returns tasks mw preset w Hgpu Hmw) as (s & w' & Hs).
    destruct (smart_in_turn tasks mw preset w s w' Hs) as (records & Hturn & Hperm).
    exists s, w', records. split; [exact Hs |]. split; [exact Hturn |].
    split; [exact Hperm |].
    apply smart_spec in Hs as (Hl & Hf & _).
    apply Permutation_length in Hl. rewrite !length_map in Hl. auto.
Qed.

(** C8. On a batch of more than one task, with the encoder present and a
    positive number of workers requested, the scheduler creates one worker
    pool, of size [min(max_workers, 6)]. *)
Theorem pool_size_is_min_of_request_and_six tasks mw preset w :
  gpu_present h -> (1 <= mw) -> (2 <= length tasks)%nat ->
  exists s w',
    process_videos_smart h tasks mw preset w = (Ok s, w') /\
    pools (trace w') = pools (trace w) ++ [Z.min mw 6].
Proof.
  intros Hgpu Hmw Hlen.
  destruct (smart_returns tasks mw preset w Hgpu Hmw) as (s & w' & Hs).
  exists s, w'. split; [exact Hs |]. eapply smart_pool; eassumption.
Qed.

(** C9. On an empty task list the scheduler runs the encoder check and
    nothing else: if the encoder is there it returns the empty summary
    (no results, total time 0, both counts 0), if not it raises. *)
Theorem empty_batch_returns_empty_summary mw preset w :
  exists b w1,
    check_gpu_available h w = (Ok b, w1) /\
    trace w1 = trace w ++ [Ran FfmpegEncoders] /\
    fs w1 = fs w /\
    process_videos_smart h [] mw preset w =
      (if b then Ok {| results := []; batch_total_time := 0;
                       successful_count := 0; failed_count := 0;
                       processing_mode := Some "none"%string |}
       else Raise (RuntimeError gpu_missing), w1).
Proof.
  destruct (check_gpu_returns w) as (b & w1 & Hg & Ht & Hf).
  exists b, w1. repeat (split; [assumption |]).
  unfold process_videos_smart.
  rewrite (bind_ok time_time _ w (clock w) w eq_refl), (bind_ok _ _ _ _ _ Hg).
  destruct b; reflexivity.
Qed.

(** C10. Whenever the scheduler returns, on the empty, the single and the
    parallel path alike, the summary has one record per task submitted
    (the records are, in some order, about the inputs of the tasks), the
    two counts add up to the number of tasks, and the successful count is
    the number of records with status success. *)
Theorem results_account_for_every_task tasks mw preset w s w' :
  process_videos_smart h tasks mw preset w = (Ok s, w') ->
  map inputs_of_result (results s) ≡ₚ map inputs_of_task tasks /\
  length (results s) = length tasks /\
  successful_count s + failed_count s = Z.of_nat (length tasks) /\
  successful_count s =
    Z.of_nat (length (filter (fun r => status r = success) (results s))).
Proof.
  intros H. apply smart_spec in H as (Hp & _ & Hs & Hf).
  assert (Hl : length (results s) = length tasks).
  { apply Permutation_length in Hp. now rewrite !length_map in Hp. }
  split; [exact Hp |]. split; [exact Hl |].
  split; [rewrite Hf, Hl; lia | exact Hs].
Qed.

End Scheduler.

(* ================================================================== *)
(** * The caption generator: claims                                     *)
(* ================================================================== *)

Section CaptionClaims.
Import caption_generator Spec.

(** C4. A segment whose stripped text is not empty yields [n >= 1] chunks,
    those of [chunk_text_by_words]; with [d] the span of the segment
    divided by [n], chunk [i] starts at [start + i*d], ends at
    [start + (i+1)*d] and lasts [d]; the durations sum to the span of the
    segment, and [n * d] is that span. *)
Theorem chunk_spans_partition_segment (segment : Segment) :
  Py.strip (seg_text segment) <> EmptyString ->
  let produced := segment_chunks segment in
  let n := length produced in
  let span := (seg_end segment - seg_start segment)%Q in
  let d := (span / inject_Z (Z.of_nat n))%Q in
  (0 < n)%nat /\
  map text produced = chunk_text_by_words (Py.strip (seg_text segment)) 5 /\
  (forall i c, produced !! i = Some c ->
     (start c == seg_start segment + inject_Z (Z.of_nat i) * d)%Q /\
     (end_ c == seg_start segment + inject_Z (Z.of_nat (i + 1)) * d)%Q /\
     (end_ c - start c == d)%Q) /\
  (total_duration produced == span)%Q /\
  (inject_Z (Z.of_nat n) * d == span)%Q.
Proof.
  intros Hne. cbv zeta. unfold segment_chunks.
  pose proof (chunk_text_nonempty (seg_text segment) 5 Hne) as Hchunks.
  remember (chunk_text_by_words (Py.strip (seg_text segment)) 5) as chunks eqn:Ec.
  clear Ec. cbv zeta.
  destruct (Nat.eqb_spec (length chunks) 0) as [E | Hn].
  { destruct chunks; [congruence | discriminate]. }
  rewrite emit_chunks_length.
  remember ((seg_end segment - seg_start segment) / inject_Z (Z.of_nat (length chunks)))%Q
    as d eqn:Ed.
  assert (Hnz : ~ (inject_Z (Z.of_nat (length chunks)) == 0)%Q).
  { unfold Qeq. simpl. lia. }
  assert (Hnd : (inject_Z (Z.of_nat (length chunks)) * d
                 == seg_end segment - seg_start segment)%Q).
  { rewrite Ed. now apply Qmult_div_r. }
  split; [lia |]. split; [apply emit_chunks_text |]. split; [| split].
  - intros i c Hc. apply emit_chunks_lookup in Hc as [Hs He].
    rewrite He, Hs. simpl Nat.add.
    rewrite Nat2Z.inj_add, inject_Z_plus. simpl (inject_Z (Z.of_nat 1)).
    repeat split; ring.
  - rewrite emit_chunks_total. exact Hnd.
  - exact Hnd.
Qed.

Lemma chunk_spans_partition_segment_witness :
  let segment := {| seg_start := 1; seg_end := 4;
                    seg_text := " a b c d e f g h i j k " |} in
  (0 < length (segment_chunks segment))%nat /\
  (total_duration (segment_chunks segment) == 3)%Q.
Proof.
  intros segment.
  destruct (chunk_spans_partition_segment segment) as (Hn & _ & _ & Ht & _).
  - vm_compute. discriminate.
  - split; [exact Hn | exact Ht].
Defined.

(** C5. What [format_timestamp_ass] prints at the values the
    specification names: 59.999 gives 0:00:60.00, neither 0:00:59.99 nor
    0:01:00.00, and 3599.999 gives 0:59:60.00: the seconds are rounded to
    two decimals without a carry into the minutes, which are truncated.
    3661.25, 0 and 3600 are printed as expected. *)
Theorem format_timestamp_ass_prints_sixty_seconds :
  format_timestamp_ass (Py.float_lit 59.999) = "0:00:60.00"%string /\
  format_timestamp_ass (Py.float_lit 3599.999) = "0:59:60.00"%string /\
  format_timestamp_ass (Py.float_lit 3661.25) = "1:01:01.25"%string /\
  format_timestamp_ass 0 = "0:00:00.00"%string /\
  format_timestamp_ass 3600 = "1:00:00.00"%string.
Proof. repeat split; vm_compute; reflexivity. Qed.

End CaptionClaims.

(* ================================================================== *)
(** * The overlay compositor: claims                                    *)
(* ================================================================== *)

Section OverlayClaims.
Import Sys video_overlay Spec.
Variable h : Host.


(** C6. Once the two durations are probed, the overlay command is the
    next and only command run, and in each timing mode the end of its
    window is at most the duration of the primary video; in [custom_time]
    mode the end is that duration when no end is given, and when the end
    asked for lies beyond it. *)
Theorem overlay_window_end_is_clamped main_path overlay_path out o w main ov w1 w2 :
  get_video_duration h main_path w = (Ok main, w1) ->
  get_video_duration h overlay_path w1 = (Ok ov, w2) ->
  exists args,
    trace (snd (apply_video_overlay_smart h main_path overlay_path out o w)) =
      trace w2 ++ [Ran (FfmpegOverlay args)] /\
    ov_end args =
      snd (overlay_window (timing_mode o) (start_time o) (end_time o) main ov) /\
    (ov_end args <= main)%Q /\
    (timing_mode o = "custom_time"%string -> end_time o = None -> ov_end args = main) /\
    (timing_mode o = "custom_time"%string ->
     forall e, end_time o = Some e -> (main < e)%Q -> ov_end args = main).
Proof.
  intros H1 H2. unfold apply_video_overlay_smart.
  rewrite (bind_ok _ _ _ _ _ H1), (bind_ok _ _ _ _ _ H2).
  destruct (overlay_window _ _ _ main ov) as [actual_start actual_end] eqn:Ew.
  unfold _apply_overlay_full_encode.
  eexists. split.
  { match goal with |- context [subprocess_run h ?c ?t] =>
      destruct (subprocess_run h c t w2) as [[cp | e] w3] eqn:E;
      pose proof (subprocess_run_inv h _ _ _ _ _ E) as [Ht _]
    end.
    - rewrite (bind_ok _ _ _ _ _ E). destruct (negb _); exact Ht.
    - rewrite (bind_raise _ _ _ _ _ E). exact Ht. }
  split; [reflexivity |]. simpl. unfold overlay_window in Ew.
  split; [| split].
  - destruct (String.eqb _ _); [| destruct (String.eqb _ _)];
      inversion Ew; subst; apply min_Q_le_r.
  - intros Hmode Hnone. rewrite Hmode, Hnone in Ew. simpl in Ew.
    inversion Ew; subst. unfold Py.min_Q.
    destruct (Qlt_le_dec main main) as [Hlt | _]; reflexivity.
  - intros Hmode e He Hlt. rewrite Hmode, He in Ew. simpl in Ew.
    inversion Ew; subst. unfold Py.min_Q.
    destruct (Qlt_le_dec main e) as [_ | Hle]; [reflexivity |].
    exfalso. exact (Qlt_not_le _ _ Hlt Hle).
Qed.

End OverlayClaims.

(* ================================================================== *)
(** * The claims on the machines of the examples                        *)
(* ================================================================== *)

Section Examples.
Import Sys video_processor Spec Scenarios.

Lemma workstation_has_gpu : gpu_present workstation.
Proof. intros w. eexists _, _. split; reflexivity. Qed.

Example chunks_of_eleven_words :
  caption_generator.chunk_text_by_words "  a b  c d e f g h i j k " 5
  = ["a b c d e"; "f g h i j"; "k"]%string.
Proof. reflexivity. Qed.

Example literal_59_999 :
  Py.float_lit 59.999 = (8444108563831325 # 140737488355328)%Q.
Proof. vm_compute. reflexivity. Qed.

(** A video of no length under any audio: the division raises. *)
Example video_of_no_length (audio_dur : Q) (w : World) :
  loops_needed audio_dur 0 w = (Raise ZeroDivisionError, w).
Proof. reflexivity. Qed.

(** Without the encoder the scheduler refuses to start. *)
Example no_encoder_no_start :
  fst (process_videos_smart (machine false studio never []) three_tasks 4
         "high_quality" empty_world)
  = Raise (RuntimeError gpu_missing).
Proof. vm_compute. reflexivity. Qed.

(** A video of 10 seconds under an audio of 25: three lines. *)
Lemma loop_count_is_float_quotient_plus_one_witness :
  exists before rest,
    trace (snd (loop_video_to_match_audio workstation "/in/bg.mp4" "/in/a25.mp3"
                  "/out/o.mp4" "high_quality" empty_world)) =
    before ++
      Wrote "/out/concat_list.txt"
        ["file '/in/bg.mp4'"; "file '/in/bg.mp4'"; "file '/in/bg.mp4'"]%string :: rest.
Proof.
  edestruct (loop_count_is_float_quotient_plus_one workstation "/in/bg.mp4"
               "/in/a25.mp3" "/out/o.mp4" "high_quality" empty_world)
    as (_ & _ & _ & rest & H).
  - vm_compute. reflexivity.
  - vm_compute. reflexivity.
  - vm_compute. reflexivity.
  - reflexivity.
  - reflexivity.
  - vm_compute. reflexivity.
  - eexists _, rest. exact H.
Defined.

(** C1 as stated fails. A video of 0.8 seconds under an audio of 4: the
    float nearest to 0.8 is above it, the quotient of the two durations
    lies below 5, its floor plus one is 5, and the code, whose division
    rounds to 5.0, writes 6 lines. A video of 1.1 seconds under an audio of
    3.3: the numbers printed have the quotient 3, whose floor plus one is
    4, and the code, whose division of the floats gives less than 3,
    writes 3 lines. *)
Lemma loop_count_is_not_floor_plus_one :
  let short := loop_video_to_match_audio cutting_room "/in/c08.mp4" "/in/a40.mp3"
                 "/out/o.mp4" "high_quality" empty_world in
  let thirds := loop_video_to_match_audio cutting_room "/in/c11.mp4" "/in/a33.mp3"
                  "/out/o.mp4" "high_quality" empty_world in
  fst (get_media_duration cutting_room "/in/c08.mp4" empty_world) = Ok (Py.fround 0.800000) /\
  fst (get_media_duration cutting_room "/in/a40.mp3" empty_world) = Ok (Py.fround 4.000000) /\
  Qfloor (Py.fround 4.000000 / Py.fround 0.800000) + 1 = 5 /\
  lines_written (trace (snd short)) = [6%nat] /\
  fst (get_media_duration cutting_room "/in/c11.mp4" empty_world) = Ok (Py.fround 1.100000) /\
  fst (get_media_duration cutting_room "/in/a33.mp3" empty_world) = Ok (Py.fround 3.300000) /\
  Qfloor (3.300000 / 1.100000) + 1 = 4 /\
  lines_written (trace (snd thirds)) = [3%nat].
Proof. repeat split; vm_compute; reflexivity. Qed.

(** A video of 10 seconds under an audio of 10: one combine, no loop. *)
Lemma shorter_or_equal_audio_combines_directly_witness :
  exists before cleanup,
    trace (snd (loop_video_to_match_audio workstation "/in/bg.mp4" "/in/a10.mp3"
                  "/out/o.mp4" "high_quality" empty_world)) =
    before ++
      Ran (FfmpegCombine "/in/bg.mp4" "/in/a10.mp3" "/out/o.mp4" high_quality false)
        :: cleanup /\
    (cleanup = [] \/ cleanup = [Unlinked "/in/bg.mp4"%string]).
Proof.
  edestruct (shorter_or_equal_audio_combines_directly workstation "/in/bg.mp4"
               "/in/a10.mp3" "/out/o.mp4" "high_quality" empty_world)
    as (cleanup & H & Hc).
  - vm_compute. reflexivity.
  - vm_compute. reflexivity.
  - vm_compute. reflexivity.
  - vm_compute. discriminate.
  - eexists _, cleanup. split; [exact H | exact Hc].
Defined.

(** Three tasks, one without its audio: two successes, one failure. *)
Lemma task_exceptions_become_failed_results_witness :
  exists s w',
    process_videos_smart workstation three_tasks 20 "high_quality" empty_world
      = (Ok s, w') /\
    length (results s) = 3%nat /\
    Forall well_formed (results s).
Proof.
  destruct (task_exceptions_become_failed_results workstation three_tasks 20
              "high_quality" empty_world) as (_ & H & _).
  - exact workstation_has_gpu.
  - lia.
  - destruct H as (s & w' & records & Hs & _ & _ & Hl & Hf).
    exists s, w'. auto.
Defined.

Example three_tasks_summary :
  let s := fst (process_videos_smart workstation three_tasks 20 "high_quality"
                  empty_world) in
  match s with
  | Ok s =>
      successful_count s = 2 /\ failed_count s = 1 /\
      map status (results s) = [failed; success; success] /\
      map output_path (results s) = [None; Some "/out/1.mp4"; Some "/out/3.mp4"]%string /\
      map error (results s) =
        [Some "ffprobe error: /in/missing.mp3: No such file or directory"; None; None]%string
  | Raise _ => False
  end.
Proof. vm_compute. repeat split; reflexivity. Qed.

(** Ten tasks, twenty workers asked for: a pool of six. *)
Lemma pool_size_is_min_of_request_and_six_witness :
  exists s w',
    process_videos_smart workstation ten_tasks 20 "high_quality" empty_world
      = (Ok s, w') /\
    pools (trace w') = [6].
Proof.
  destruct (pool_size_is_min_of_request_and_six workstation ten_tasks 20
              "high_quality" empty_world) as (s & w' & H & Hp).
  - exact workstation_has_gpu.
  - lia.
  - simpl. lia.
  - exists s, w'. split; [exact H | exact Hp].
Defined.

Lemma results_account_for_every_task_witness :
  let run := process_videos_smart workstation three_tasks 20 "high_quality"
               empty_world in
  exists s, fst run = Ok s /\
    length (results s) = 3%nat /\ successful_count s + failed_count s = 3.
Proof.
  intros run. destruct run as [[s | e] w'] eqn:E.
  - destruct (results_account_for_every_task workstation three_tasks 20
                "high_quality" empty_world s w' E) as (_ & Hl & Hc & _).
    exists s. split; [reflexivity | split; [exact Hl | exact Hc]].
  - exfalso. vm_compute in E. discriminate.
Defined.

(** A primary video of 60 seconds, an overlay asked to end at 90: the
    window ends at 60. *)
Lemma overlay_window_end_is_clamped_witness :
  exists args before,
    trace (snd (video_overlay.apply_video_overlay_smart workstation "/in/main.mp4"
                  "/in/green.mp4" "/out/ov.mp4" until_90 empty_world)) =
      before ++ [Ran (FfmpegOverlay args)] /\
    (ov_end args == 60)%Q.
Proof.
  edestruct (overlay_window_end_is_clamped workstation "/in/main.mp4" "/in/green.mp4"
               "/out/ov.mp4" until_90 empty_world) as (args & Ht & _ & _ & _ & He).
  - vm_compute. reflexivity.
  - vm_compute. reflexivity.
  - exists args. eexists. split; [exact Ht |].
    rewrite (He eq_refl _ eq_refl); reflexivity.
Defined.

End Examples.

(* ================================================================== *)
(** * More about the caption generator                                  *)
(* ================================================================== *)

Section SplitJoin.
Import Notions.

Lemma append_assoc (a b c : string) : ((a ++ b) ++ c)%string = (a ++ (b ++ c))%string.
Proof.
  induction a as [| x a IH]; [reflexivity |].
  rewrite !append_cons_l. now rewrite IH.
Qed.

Lemma append_nil_r (a : string) : (a ++ EmptyString)%string = a.
Proof.
  induction a as [| x a IH]; [reflexivity |]. rewrite append_cons_l. now rewrite IH.
Qed.

Lemma spaceless_append (a b : string) :
  spaceless (a ++ b) = spaceless a && spaceless b.
Proof.
  induction a as [| x a IH]; [reflexivity |].
  rewrite append_cons_l. simpl. rewrite IH. now rewrite andb_assoc.
Qed.

Lemma is_empty_append_char (a : string) (c : ascii) :
  Py.is_empty (a ++ String c EmptyString) = false.
Proof. destruct a; reflexivity. Qed.

(** Reading a run of characters that are not whitespace extends the
    current word. *)
Lemma split_go_word (w cur rest : string) :
  spaceless w = true ->
  Py.split_go cur (w ++ rest) = Py.split_go (cur ++ w) rest.
Proof.
  revert cur. induction w as [| c w IH]; intros cur Hw.
  - rewrite append_nil_l. now rewrite append_nil_r.
  - rewrite append_cons_l. simpl in *.
    apply andb_true_iff in Hw as [Hc Hw].
    apply negb_true_iff in Hc. rewrite Hc, IH by exact Hw.
    now rewrite append_assoc.
Qed.

(** The words [split] yields are words. *)
Lemma split_go_words (s cur : string) :
  spaceless cur = true -> Forall is_word (Py.split_go cur s).
Proof.
  revert cur. induction s as [| c s IH]; intros cur Hcur; simpl.
  - destruct cur; [constructor |]. constructor; [| constructor].
    split; [discriminate | exact Hcur].
  - destruct (Py.isspace c) eqn:Hc.
    + destruct cur as [| x cur]; simpl.
      * now apply IH.
      * constructor; [split; [discriminate | exact Hcur] | now apply IH].
    + apply IH. rewrite spaceless_append, Hcur. simpl. now rewrite Hc.
Qed.

Lemma split_words (s : string) : Forall is_word (Py.split s).
Proof. now apply split_go_words. Qed.

(** Round trip: splitting the join of words gives the words back. *)
Lemma split_join (ws : list string) :
  Forall is_word ws -> Py.split (Py.join " " ws) = ws.
Proof.
  unfold Py.split. induction 1 as [| w ws [Hne Hw] Hws IH]; [reflexivity |].
  destruct ws as [| w' ws].
  - simpl. rewrite <- (append_nil_r w) at 1.
    rewrite split_go_word by exact Hw. rewrite append_nil_l. simpl.
    destruct w; [contradiction | reflexivity].
  - change (Py.join " " (w :: w' :: ws))
      with (w ++ String " " (Py.join " " (w' :: ws)))%string.
    rewrite split_go_word by exact Hw. rewrite append_nil_l.
    cbn [Py.split_go]. change (Py.isspace " "%char) with true. cbv iota.
    destruct w; [contradiction |]. cbn [Py.is_empty]. f_equal. exact IH.
Qed.

End SplitJoin.

Section Chunking.
Import caption_generator Notions.

(** [chunk_loop] joins the groups of [groups]. *)
Lemma chunk_loop_groups (max_words : Z) (words current chunks : list string) :
  chunk_loop max_words words current chunks
  = chunks ++ map (Py.join " ") (groups max_words words current).
Proof.
  revert current chunks. induction words as [| w words IH]; intros current chunks; simpl.
  - case_bool_decide; simpl; [now rewrite app_nil_r | reflexivity].
  - destruct (_ >=? _); rewrite IH; [| reflexivity].
    simpl. now rewrite <- app_assoc.
Qed.

Lemma groups_concat (max_words : Z) (words current : list string) :
  concat (groups max_words words current) = current ++ words.
Proof.
  revert current. induction words as [| w words IH]; intros current; simpl.
  - case_bool_decide as E; simpl; [now rewrite E | now rewrite !app_nil_r].
  - destruct (_ >=? _); simpl; rewrite IH; now rewrite <- ?app_assoc.
Qed.

Lemma groups_words (max_words : Z) (words current : list string) :
  Forall is_word words -> Forall is_word current ->
  Forall (Forall is_word) (groups max_words words current).
Proof.
  revert current. induction words as [| w words IH]; intros current Hw Hc; simpl.
  - case_bool_decide; repeat constructor. exact Hc.
  - inversion Hw; subst.
    assert (Forall is_word (current ++ [w])) by (apply Forall_app; auto).
    destruct (_ >=? _); [constructor |]; auto.
Qed.

(** Sizes: with room left in the current group, every group has between
    1 and [max_words] words, every group but the last has [max_words]. *)
Lemma groups_sizes (max_words : Z) (words current : list string) :
  1 <= max_words -> Z.of_nat (length current) < max_words ->
  Forall (fun g => 1 <= Z.of_nat (length g) <= max_words)
    (groups max_words words current) /\
  (forall i g, groups max_words words current !! i = Some g ->
     (S i < length (groups max_words words current))%nat ->
     Z.of_nat (length g) = max_words).
Proof.
  intros Hm. revert current.
  induction words as [| w words IH]; intros current Hc; simpl.
  - case_bool_decide as E.
    + split; [constructor |]. intros i g Hg. discriminate.
    + split.
      * constructor; [| constructor]. destruct current; [congruence | cbn [length] in *; lia].
      * intros [| i] g Hg Hi; simpl in *; lia.
  - destruct (Z.geb_spec (Z.of_nat (length (current ++ [w]))) max_words) as [Hge | Hlt].
    + rewrite length_app in Hge. simpl in Hge.
      assert (Hlen : Z.of_nat (length (current ++ [w])) = max_words)
        by (rewrite length_app; simpl; lia).
      assert (H0 : Z.of_nat (length (@nil string)) < max_words) by (simpl; lia).
      destruct (IH [] H0) as [IH1 IH2]. split.
      * constructor; [lia | exact IH1].
      * intros [| i] g Hg Hi; simpl in *.
        -- now injection Hg as <-.
        -- apply (IH2 i g Hg). lia.
    + apply IH. exact Hlt.
Qed.

(** The number of groups. *)
Lemma groups_count (max_words : Z) (words current : list string) :
  1 <= max_words -> Z.of_nat (length current) < max_words ->
  Z.of_nat (length (groups max_words words current))
  = (Z.of_nat (length current + length words) + max_words - 1) / max_words.
Proof.
  intros Hm. revert current.
  induction words as [| w words IH]; intros current Hc; simpl.
  - rewrite Nat.add_0_r. case_bool_decide as E.
    + subst. simpl. symmetry. apply Z.div_small. lia.
    + change (Z.of_nat (length [current])) with 1.
      assert (1 <= Z.of_nat (length current)) by (destruct current; [congruence | simpl; lia]).
      apply (Z.div_unique _ _ 1 (Z.of_nat (length current) - 1)); lia.
  - destruct (Z.geb_spec (Z.of_nat (length (current ++ [w]))) max_words) as [Hge | Hlt].
    + rewrite length_app in Hge. simpl in Hge. simpl length.
      rewrite Nat2Z.inj_succ, IH by (simpl; lia). simpl length.
      replace (Z.of_nat (length current + S (length words)) + max_words - 1)
        with ((Z.of_nat (0 + length words) + max_words - 1) + 1 * max_words) by lia.
      rewrite Z.div_add by lia. lia.
    + rewrite IH by exact Hlt. rewrite length_app. simpl.
      f_equal. lia.
Qed.

End Chunking.

Section ChunkingFacts.
Import caption_generator Notions.

Lemma map_split_join (gs : list (list string)) :
  Forall (Forall is_word) gs ->
  map words_of (map (Py.join " ") gs) = gs.
Proof.
  induction 1 as [| g gs Hg _ IH]; [reflexivity |].
  simpl. unfold words_of at 1. now rewrite split_join, IH.
Qed.

Lemma chunk_text_groups (s : string) (max_words : Z) :
  map words_of (chunk_text_by_words s max_words) = groups max_words (Py.split s) [].
Proof.
  unfold chunk_text_by_words. rewrite chunk_loop_groups. simpl.
  apply map_split_join, groups_words; [apply split_words | constructor].
Qed.

Lemma groups_singletons (max_words : Z) (words : list string) :
  max_words <= 1 -> groups max_words words [] = map (fun w => [w]) words.
Proof.
  intros Hm. induction words as [| w words IH]; [reflexivity |].
  cbn [groups app length]. change (Z.of_nat 1) with 1.
  destruct (Z.geb_spec 1 max_words); [| lia]. now rewrite IH.
Qed.

Lemma chunk_text_concat (s : string) (max_words : Z) :
  concat (map words_of (chunk_text_by_words s max_words)) = Py.split s.
Proof. rewrite chunk_text_groups. apply groups_concat. Qed.

(** X1. Chunking neither loses, adds nor reorders a word: whatever
    [max_words] is, the words of the chunks of [chunk_text_by_words], read
    in order, are the words of the text. *)
Theorem chunks_keep_every_word (s : string) (max_words : Z) :
  concat (map words_of (chunk_text_by_words s max_words)) = Py.split s.
Proof. apply chunk_text_concat. Qed.

(** X2. For [max_words >= 1], a text of [n] words is cut into
    [ceil (n / max_words)] chunks; no chunk is empty, none has more than
    [max_words] words, and every chunk but the last has exactly
    [max_words]. *)
Theorem chunks_are_full_but_the_last (s : string) (max_words : Z) :
  1 <= max_words ->
  let chunks := chunk_text_by_words s max_words in
  Z.of_nat (length chunks)
    = (Z.of_nat (length (Py.split s)) + max_words - 1) / max_words /\
  Forall (fun c => 1 <= Z.of_nat (length (words_of c)) <= max_words) chunks /\
  (forall i c, chunks !! i = Some c -> (S i < length chunks)%nat ->
     Z.of_nat (length (words_of c)) = max_words).
Proof.
  intros Hm chunks.
  assert (Hg : map words_of chunks = groups max_words (Py.split s) [])
    by apply chunk_text_groups.
  assert (H0 : Z.of_nat (length (@nil string)) < max_words) by (simpl; lia).
  destruct (groups_sizes max_words (Py.split s) [] Hm H0) as [Hall Hfull].
  pose proof (groups_count max_words (Py.split s) [] Hm H0) as Hcount.
  rewrite <- Hg in Hall, Hfull, Hcount. rewrite length_map in Hcount, Hfull.
  split; [exact Hcount |]. split.
  - apply Forall_map in Hall. exact Hall.
  - intros i c Hc Hi. apply (Hfull i (words_of c)); [| exact Hi].
    rewrite list_lookup_fmap. unfold chunks in Hc |- *. now rewrite Hc.
Qed.

Lemma chunks_are_full_but_the_last_witness :
  let chunks := chunk_text_by_words "a b c d e f g" 3 in
  Z.of_nat (length chunks) = 3 /\
  Forall (fun c => 1 <= Z.of_nat (length (words_of c)) <= 3) chunks /\
  (forall i c, chunks !! i = Some c -> (S i < length chunks)%nat ->
     Z.of_nat (length (words_of c)) = 3).
Proof. apply (chunks_are_full_but_the_last "a b c d e f g" 3). lia. Defined.

(** X3. With [max_words <= 1] (zero and negative values included) the
    function does not fail and does not loop: every word is a chunk of its
    own. *)
Theorem small_max_words_gives_one_word_chunks (s : string) (max_words : Z) :
  max_words <= 1 -> chunk_text_by_words s max_words = Py.split s.
Proof.
  intros Hm. unfold chunk_text_by_words.
  rewrite chunk_loop_groups, groups_singletons by exact Hm. simpl.
  rewrite map_map. simpl. apply map_id.
Qed.

Lemma small_max_words_gives_one_word_chunks_witness :
  chunk_text_by_words "never  gonna give" (-2) = ["never"; "gonna"; "give"]%string.
Proof. apply (small_max_words_gives_one_word_chunks "never  gonna give" (-2)). lia. Defined.

(** Splitting at whitespace after a text and a separating space. *)
Lemma split_go_space (a b cur : string) (sp : ascii) :
  Py.isspace sp = true ->
  Py.split_go cur (a ++ String sp b) = Py.split_go cur a ++ Py.split b.
Proof.
  intros Hsp. revert cur. induction a as [| c a IH]; intros cur.
  - rewrite append_nil_l. simpl. rewrite Hsp. now destruct cur.
  - rewrite append_cons_l. simpl. destruct (Py.isspace c); [| apply IH].
    destruct cur; simpl; now rewrite IH.
Qed.

Lemma split_join_texts (texts : list string) :
  Py.split (Py.join " " texts) = concat (map Py.split texts).
Proof.
  induction texts as [| t texts IH]; [reflexivity |].
  destruct texts as [| t' texts].
  - simpl. now rewrite app_nil_r.
  - change (Py.join " " (t :: t' :: texts))
      with (t ++ String " " (Py.join " " (t' :: texts)))%string.
    unfold Py.split at 1. rewrite split_go_space by reflexivity.
    rewrite IH. reflexivity.
Qed.

Lemma split_lstrip (s : string) : Py.split (Py.lstrip s) = Py.split s.
Proof.
  induction s as [| c s IH]; [reflexivity |].
  unfold Py.split in *. simpl. destruct (Py.isspace c) eqn:Hc; [exact IH |].
  simpl. now rewrite Hc.
Qed.

Lemma split_go_rstrip (s cur : string) :
  Py.split_go cur (Py.rstrip s) = Py.split_go cur s.
Proof.
  revert cur. induction s as [| c s IH]; intros cur; [reflexivity |].
  simpl. destruct (Py.isspace c) eqn:Hc; simpl.
  - destruct (Py.rstrip s) eqn:Hr; simpl.
    + rewrite <- (IH EmptyString). simpl. now destruct cur.
    + rewrite Hc. rewrite <- !IH. reflexivity.
  - rewrite Hc. apply IH.
Qed.

Lemma split_strip (s : string) : Py.split (Py.strip s) = Py.split s.
Proof.
  unfold Py.strip, Py.split. rewrite split_go_rstrip. apply split_lstrip.
Qed.

Lemma segment_chunks_text (segment : Segment) :
  map text (segment_chunks segment)
  = chunk_text_by_words (Py.strip (seg_text segment)) 5.
Proof.
  unfold segment_chunks.
  destruct (Nat.eqb_spec (length (chunk_text_by_words (Py.strip (seg_text segment)) 5)) 0)
    as [E | _].
  - destruct (chunk_text_by_words _ 5); [reflexivity | discriminate].
  - apply emit_chunks_text.
Qed.

(** X4. The captions of a transcription spell out its full text: the
    words of the chunks that [transcribe_audio] returns, in order, are the
    words of [full_text], and these are the words of the segments the model
    produced. A segment of whitespace only contributes nothing to either. *)
Theorem captions_spell_the_full_text (model_segments : list Segment) (lang : string) :
  let t := transcribe_audio model_segments lang in
  concat (map (fun c => words_of (text c)) (segments t)) = Py.split (full_text t) /\
  Py.split (full_text t) = concat (map (fun s => Py.split (seg_text s)) model_segments).
Proof.
  cbv zeta. simpl.
  assert (E : Py.split (Py.join " " (map (fun s => Py.strip (seg_text s)) model_segments))
              = concat (map (fun s => Py.split (seg_text s)) model_segments)).
  { rewrite split_join_texts, map_map. f_equal. apply map_ext.
    intros s. apply split_strip. }
  split; [| exact E]. rewrite E. clear E.
  induction model_segments as [| s segs IH]; [reflexivity |].
  simpl. rewrite map_app, concat_app, IH. f_equal.
  rewrite <- (map_map text words_of), segment_chunks_text.
  rewrite chunk_text_concat. apply split_strip.
Qed.

End ChunkingFacts.

(* ================================================================== *)
(** * Clock readings: the timestamp and the time label                  *)
(* ================================================================== *)

Section ClockFacts.
Import caption_generator Notions video_processor_labels.

Lemma int_of_float_inject (z : Z) : Py.int_of_float (inject_Z z) = z.
Proof. unfold Py.int_of_float. simpl. apply Z.quot_1_r. Qed.

Lemma floor_unique (x : Q) (q : Z) :
  (inject_Z q <= x)%Q -> (x < inject_Z q + 1)%Q -> Qfloor x = q.
Proof.
  intros Hlo Hhi. destruct (floor_bounds x) as [Hlo' Hhi'].
  assert (A : (inject_Z q < inject_Z (Qfloor x + 1))%Q)
    by (rewrite inject_Z_plus; change (inject_Z 1) with 1%Q; lra).
  assert (B : (inject_Z (Qfloor x) < inject_Z (q + 1))%Q)
    by (rewrite inject_Z_plus; change (inject_Z 1) with 1%Q; lra).
  rewrite <- Zlt_Qlt in A, B. lia.
Qed.

(** Division by a positive constant, as a product. *)
Lemma div_bounds (x y : Q) :
  (0 < y)%Q ->
  (y * inject_Z (Qfloor (x / y)) <= x)%Q /\ (x < y * inject_Z (Qfloor (x / y)) + y)%Q.
Proof.
  intros Hy.
  assert (Hnz : ~ (y == 0)%Q) by lra.
  pose proof (Qmult_div_r x y Hnz) as E.
  destruct (floor_bounds (x / y)) as [Hlo Hhi].
  apply (Qmult_le_l _ _ y Hy) in Hlo. apply (Qmult_lt_l _ _ y Hy) in Hhi.
  rewrite E in Hlo, Hhi. split; [exact Hlo |].
  eapply Qlt_le_trans; [exact Hhi |]. apply Qle_lteq. right. ring.
Qed.

Lemma div_unique (x y : Q) (q : Z) :
  (0 < y)%Q -> (y * inject_Z q <= x)%Q -> (x < y * inject_Z q + y)%Q ->
  Qfloor (x / y) = q.
Proof.
  intros Hy Hlo Hhi. apply floor_unique.
  - apply Qle_shift_div_l; [exact Hy |]. lra.
  - apply Qlt_shift_div_r; [exact Hy |].
    eapply Qlt_le_trans; [exact Hhi |]. apply Qle_lteq. right. ring.
Qed.

Lemma mod_bounds (x y : Q) :
  (0 < y)%Q -> (0 <= Py.mod_ x y)%Q /\ (Py.mod_ x y < y)%Q.
Proof.
  intros Hy. destruct (div_bounds x y Hy) as [Hlo Hhi].
  unfold Py.mod_, Py.floordiv. split; lra.
Qed.

(** Whole hours, whole minutes of the rest, and what is left. *)
Lemma clock_reading (x : Q) :
  let h := Qfloor (x / 3600) in
  let m := Qfloor (Py.mod_ x 3600 / 60) in
  0 <= m <= 59 /\
  (x == 3600 * inject_Z h + 60 * inject_Z m + Py.mod_ x 60)%Q /\
  (3600 * inject_Z h + 60 * inject_Z m <= x)%Q /\
  (x < 3600 * inject_Z h + 60 * inject_Z m + 60)%Q.
Proof.
  cbv zeta.
  assert (H3600 : (0 < 3600)%Q) by reflexivity.
  assert (H60 : (0 < 60)%Q) by reflexivity.
  destruct (mod_bounds x 3600 H3600) as [Hr0 Hr1].
  destruct (div_bounds (Py.mod_ x 3600) 60 H60) as [Hm0 Hm1].
  remember (Qfloor (Py.mod_ x 3600 / 60)) as m eqn:Em.
  assert (Hm : 0 <= m <= 59).
  { assert (A : (inject_Z (-1) < inject_Z m)%Q) by (change (inject_Z (-1)) with (-1)%Q; lra).
    assert (B : (inject_Z m < inject_Z 60)%Q) by (change (inject_Z 60) with 60%Q; lra).
    rewrite <- Zlt_Qlt in A, B. lia. }
  unfold Py.mod_, Py.floordiv in Hm0, Hm1.
  remember (Qfloor (x / 3600)) as h eqn:Eh.
  assert (E : Qfloor (x / 60) = 60 * h + m).
  { apply div_unique; [exact H60 | |];
      rewrite inject_Z_plus, inject_Z_mult; change (inject_Z 60) with 60%Q; lra. }
  unfold Py.mod_, Py.floordiv. rewrite E, inject_Z_plus, inject_Z_mult.
  change (inject_Z 60) with 60%Q.
  split; [exact Hm |]. split; [ring |]. split; lra.
Qed.

Lemma div_nonneg (x y : Q) : (0 < y)%Q -> (0 <= x)%Q -> (0 <= x / y)%Q.
Proof. intros Hy Hx. apply Qle_shift_div_l; [exact Hy | lra]. Qed.

End ClockFacts.

Section ClockClaims.
Import caption_generator Notions video_processor_labels.

(** Rounding at or above the half of an odd integer goes up. *)
Lemma round_half_even_up (x : Q) (n : Z) :
  Z.even n = false ->
  (inject_Z n + (1 # 2) <= x)%Q -> (x < inject_Z n + 1)%Q ->
  Py.round_half_even x = n + 1.
Proof.
  intros Hodd Hlo Hhi. unfold Py.round_half_even.
  assert (E : Qfloor x = n) by (apply floor_unique; lra).
  rewrite E, Hodd.
  destruct (x - inject_Z n ?= 1 # 2)%Q eqn:C; try reflexivity.
  apply Qlt_alt in C. lra.
Qed.

Lemma mod_unfold (x y : Q) :
  (Py.mod_ x y == x - y * inject_Z (Qfloor (x / y)))%Q.
Proof. reflexivity. Qed.

(** X5. For a time that is not negative and lies below [2^53] seconds,
    where the floor division and the remainder of the floats are exact,
    what [format_timestamp_ass] prints is a clock reading of its argument:
    hours that are not negative, minutes from 0 to 59 and seconds from 0
    (included) to 60 (excluded) that add up to the argument. *)
Theorem timestamp_fields_add_up (seconds : Q) :
  (0 <= seconds)%Q -> (seconds < 2 ^ 53)%Q ->
  exists (h m : Z) (s : Q),
    format_timestamp_ass seconds
    = (Py.str_int h ++ ":" ++ Py.format_02d m ++ ":" ++ Py.format_05_2f s)%string /\
    0 <= h /\ 0 <= m <= 59 /\ (0 <= s)%Q /\ (s < 60)%Q /\
    (seconds == 3600 * inject_Z h + 60 * inject_Z m + s)%Q.
Proof.
  intros Hpos _.
  exists (Qfloor (seconds / 3600)), (Qfloor (Py.mod_ seconds 3600 / 60)), (Py.mod_ seconds 60).
  destruct (clock_reading seconds) as (Hm & E & Hlo & Hhi).
  destruct (mod_bounds seconds 60 eq_refl) as [Hs0 Hs1].
  split; [| split; [| split; [exact Hm | split; [exact Hs0 | split; [exact Hs1 | exact E]]]]].
  - unfold format_timestamp_ass, Py.floordiv. now rewrite !int_of_float_inject.
  - apply floor_nonneg, div_nonneg; [reflexivity | exact Hpos].
Qed.

Lemma timestamp_fields_add_up_witness :
  exists (h m : Z) (s : Q),
    format_timestamp_ass (Py.float_lit 3661.25)
    = (Py.str_int h ++ ":" ++ Py.format_02d m ++ ":" ++ Py.format_05_2f s)%string /\
    0 <= h /\ 0 <= m <= 59 /\ (0 <= s)%Q /\ (s < 60)%Q /\
    (Py.float_lit 3661.25 == 3600 * inject_Z h + 60 * inject_Z m + s)%Q.
Proof.
  apply (timestamp_fields_add_up (Py.float_lit 3661.25));
    vm_compute; [discriminate | reflexivity].
Defined.

(** X6. In the last half hundredth of a minute the seconds are printed
    as [60.00]: for a time that is not negative and lies below [2^53]
    seconds, from 59.995 seconds into a minute on, [format_timestamp_ass]
    rounds the seconds up to 60 while the minutes (and hours) stay those of
    the minute that is ending. *)
Theorem timestamp_seconds_round_up_to_sixty (seconds : Q) :
  (0 <= seconds)%Q -> (seconds < 2 ^ 53)%Q ->
  (59995 # 1000 <= Py.mod_ seconds 60)%Q ->
  exists h m : Z,
    format_timestamp_ass seconds
    = (Py.str_int h ++ ":" ++ Py.format_02d m ++ ":60.00")%string /\
    0 <= h /\ 0 <= m <= 59 /\
    (3600 * inject_Z h + 60 * inject_Z m <= seconds)%Q /\
    (seconds < 3600 * inject_Z h + 60 * inject_Z m + 60)%Q.
Proof.
  intros Hpos _ Hs.
  exists (Qfloor (seconds / 3600)), (Qfloor (Py.mod_ seconds 3600 / 60)).
  destruct (clock_reading seconds) as (Hm & E & Hlo & Hhi).
  destruct (mod_bounds seconds 60 eq_refl) as [Hs0 Hs1].
  split; [| split; [| split; [exact Hm | split; assumption]]].
  2:{ apply floor_nonneg, div_nonneg; [reflexivity | exact Hpos]. }
  unfold format_timestamp_ass, Py.floordiv at 1 2. rewrite !int_of_float_inject.
  do 4 f_equal. unfold Py.format_05_2f.
  destruct (Qlt_le_dec (Py.mod_ seconds 60) 0) as [Hneg | _]; [lra |].
  pose proof (Qabs_pos _ Hs0) as Ea.
  rewrite (round_half_even_up _ 5999); [reflexivity | reflexivity | |];
    change (inject_Z 5999) with 5999%Q; lra.
Qed.

Lemma timestamp_seconds_round_up_to_sixty_witness :
  exists h m : Z,
    format_timestamp_ass (Py.float_lit 119.997)
    = (Py.str_int h ++ ":" ++ Py.format_02d m ++ ":60.00")%string /\
    0 <= h /\ 0 <= m <= 59 /\
    (3600 * inject_Z h + 60 * inject_Z m <= Py.float_lit 119.997)%Q /\
    (Py.float_lit 119.997 < 3600 * inject_Z h + 60 * inject_Z m + 60)%Q.
Proof.
  apply (timestamp_seconds_round_up_to_sixty (Py.float_lit 119.997));
    vm_compute; [discriminate | reflexivity | discriminate].
Defined.

(** X7. From one minute to one hour [format_time] prints whole minutes
    and whole seconds, both truncated: [m] from 1 to 59, [k] from 0 to 59,
    with [60 m + k <= seconds < 60 m + k + 1]; the seconds are never
    rounded up to 60. *)
Theorem format_time_minutes_and_seconds (seconds : Q) :
  (60 <= seconds)%Q -> (seconds < 3600)%Q ->
  exists m k : Z,
    format_time seconds = (Py.str_int m ++ "m " ++ Py.str_int k ++ "s")%string /\
    1 <= m <= 59 /\ 0 <= k <= 59 /\
    (60 * inject_Z m + inject_Z k <= seconds)%Q /\
    (seconds < 60 * inject_Z m + inject_Z k + 1)%Q.
Proof.
  intros Hlo Hhi.
  exists (Qfloor (seconds / 60)), (Qfloor (Py.mod_ seconds 60)).
  destruct (mod_bounds seconds 60 eq_refl) as [Hs0 Hs1].
  destruct (div_bounds seconds 60 eq_refl) as [Hd0 Hd1].
  destruct (floor_bounds (Py.mod_ seconds 60)) as [Hk0 Hk1].
  split; [| split; [| split; [| split]]].
  - unfold format_time.
    destruct (Qlt_le_dec seconds 60) as [H | _]; [lra |].
    destruct (Qlt_le_dec seconds 3600) as [_ | H]; [| lra].
    unfold Py.floordiv. rewrite int_of_float_inject.
    now rewrite (int_of_float_floor _ Hs0).
  - assert (A : (inject_Z 0 < inject_Z (Qfloor (seconds / 60)))%Q)
      by (change (inject_Z 0) with 0%Q; lra).
    assert (B : (inject_Z (Qfloor (seconds / 60)) < inject_Z 60)%Q)
      by (change (inject_Z 60) with 60%Q; lra).
    rewrite <- Zlt_Qlt in A, B. lia.
  - assert (A : (inject_Z (-1) < inject_Z (Qfloor (Py.mod_ seconds 60)))%Q)
      by (change (inject_Z (-1)) with (-1)%Q; lra).
    assert (B : (inject_Z (Qfloor (Py.mod_ seconds 60)) < inject_Z 60)%Q)
      by (change (inject_Z 60) with 60%Q; lra).
    rewrite <- Zlt_Qlt in A, B. lia.
  - pose proof (mod_unfold seconds 60) as Em. lra.
  - pose proof (mod_unfold seconds 60) as Em. lra.
Qed.

Lemma format_time_minutes_and_seconds_witness :
  exists m k : Z,
    format_time (Py.float_lit 125.9)
    = (Py.str_int m ++ "m " ++ Py.str_int k ++ "s")%string /\
    1 <= m <= 59 /\ 0 <= k <= 59 /\
    (60 * inject_Z m + inject_Z k <= Py.float_lit 125.9)%Q /\
    (Py.float_lit 125.9 < 60 * inject_Z m + inject_Z k + 1)%Q.
Proof.
  apply (format_time_minutes_and_seconds (Py.float_lit 125.9));
    vm_compute; [discriminate | reflexivity].
Defined.



(** X9. Just below one minute [format_time] prints [60.0s]: a value from
    59.95 up to, not including, 60 takes the branch of the seconds, whose
    one decimal rounds up to 60.0. *)
Theorem format_time_prints_sixty_seconds (seconds : Q) :
  (5995 # 100 <= seconds)%Q -> (seconds < 60)%Q ->
  format_time seconds = "60.0s"%string.
Proof.
  intros Hlo Hhi. unfold format_time.
  destruct (Qlt_le_dec seconds 60) as [_ | H]; [| lra].
  unfold PyFmt.format_1f.
  destruct (Qlt_le_dec seconds 0) as [Hneg | Hpos]; [lra |].
  pose proof (Qabs_pos _ Hpos) as Ea.
  rewrite (round_half_even_up _ 599); [reflexivity | reflexivity | |];
    change (inject_Z 599) with 599%Q; lra.
Qed.

Lemma format_time_prints_sixty_seconds_witness :
  format_time (Py.float_lit 59.97) = "60.0s"%string.
Proof.
  apply (format_time_prints_sixty_seconds (Py.float_lit 59.97));
    vm_compute; [discriminate | reflexivity].
Defined.

End ClockClaims.

(* ================================================================== *)
(** * More about the video processor                                    *)
(* ================================================================== *)

Section ProcessorFacts.
Import Sys video_processor Spec.
Variable h : Host.

Lemma unlink_ok p w u w' :
  unlink p w = (Ok u, w') ->
  (p ∈ fs w) /\ fs w' = fs w ∖ {[ p ]} /\ trace w' = trace w ++ [Unlinked p].
Proof.
  unfold unlink. case_bool_decide as Hp; intros E; inversion E; subst; simpl; auto.
Qed.

Lemma unlink_there p w :
  p ∈ fs w -> exists w', unlink p w = (Ok tt, w').
Proof. intros Hp. unfold unlink. rewrite bool_decide_eq_true_2 by exact Hp. eauto. Qed.

(** What a successful run of [loop_video_to_match_audio] went through:
    the three probes, then either the direct combination or the loop. *)
Lemma loop_ok_inv video audio out preset w r t w' :
  loop_video_to_match_audio h video audio out preset w = (Ok (r, t), w') ->
  let c := path_join (path_parent out) "concat_list.txt" in
  let l := path_join (path_parent out) "temp_looped.mp4" in
  let tr := path_join (path_parent out) "temp_trimmed.mp4" in
  let combine x := Ran (FfmpegCombine x audio out (quality_settings_get preset)
                          (String.eqb preset "maximum_quality")) in
  r = out /\ t = (clock w' - clock w)%Q /\
  exists p v a w1 w2 w3,
    scale_video_to_1080p h video (scaled_path video out) preset w = (Ok p, w1) /\
    get_media_duration h p w1 = (Ok v, w2) /\
    get_media_duration h audio w2 = (Ok a, w3) /\
    (p = video \/ (p = scaled_path video out /\ p ∈ fs w3)) /\
    if Qle_bool a v then
      trace w' = trace w3 ++ combine p ::
                   (if String.eqb p video then [] else [Unlinked p]) /\
      fs w' = if String.eqb p video then fs w3 ∪ {[ out ]}
              else (fs w3 ∪ {[ out ]}) ∖ {[ p ]}
    else
      trace w' = trace w3 ++
        [ Wrote c (concat_lines h p (Py.int_of_float (Py.truediv a v) + 1));
          Ran (FfmpegConcat c l); Ran (FfmpegTrim l a tr); combine tr;
          Unlinked c; Unlinked l; Unlinked tr ] ++
        (if String.eqb p video then [] else [Unlinked p]) /\
      fs w' = if String.eqb p video
              then (fs w3 ∪ {[ c ]} ∪ {[ l ]} ∪ {[ tr ]} ∪ {[ out ]}) ∖ {[ c ]} ∖ {[ l ]} ∖ {[ tr ]}
              else (fs w3 ∪ {[ c ]} ∪ {[ l ]} ∪ {[ tr ]} ∪ {[ out ]})
                     ∖ {[ c ]} ∖ {[ l ]} ∖ {[ tr ]} ∖ {[ p ]}.
Proof.
  intros H. cbv zeta. unfold loop_video_to_match_audio in H.
  rewrite (bind_ok time_time _ w (clock w) w eq_refl) in H. cbv zeta in H.
  fold (scaled_path video out) in H.
  pose proof (scaled_path_fresh video out) as Hfresh.
  pose proof (temporaries_distinct video out) as Hd. cbv zeta in Hd.
  remember (path_join (path_parent out) "concat_list.txt") as c eqn:Ec.
  remember (path_join (path_parent out) "temp_looped.mp4") as l eqn:El.
  remember (path_join (path_parent out) "temp_trimmed.mp4") as tr eqn:Et.
  remember (scaled_path video out) as s eqn:Es.
  clear Ec El Et.
  apply bind_inv in H as [(p & w1 & H1 & H) | (? & ? & ?)]; [| discriminate].
  pose proof (scale_inv _ _ _ _ _ _ _ H1) as Hs.
  apply bind_inv in H as [(v & w2 & H2 & H) | (? & ? & ?)]; [| discriminate].
  pose proof (get_media_duration_inv _ _ _ _ _ H2) as [Hf2 _].
  apply bind_inv in H as [(a & w3 & H3 & H) | (? & ? & ?)]; [| discriminate].
  pose proof (get_media_duration_inv _ _ _ _ _ H3) as [Hf3 _].
  assert (Hp : (p = video) \/ (p = s /\ p <> video /\ s ∈ fs w3)).
  { destruct Hs as [[-> E] | [-> E]]; [now left | right].
    split; [reflexivity |]. split; [exact Hfresh |].
    rewrite Hf3, Hf2, E. set_solver. }
  assert (Hin : p = video \/ (p = s /\ p ∈ fs w3)).
  { destruct Hp as [-> | (-> & _ & Hp)]; auto. }
  cut (r = out /\ t = (clock w' - clock w)%Q /\
       if Qle_bool a v then
         trace w' = trace w3 ++
           Ran (FfmpegCombine p audio out (quality_settings_get preset)
                  (String.eqb preset "maximum_quality")) ::
           (if String.eqb p video then [] else [Unlinked p]) /\
         fs w' = (if String.eqb p video then fs w3 ∪ {[ out ]}
                  else (fs w3 ∪ {[ out ]}) ∖ {[ p ]})
       else
         trace w' = trace w3 ++
           [ Wrote c (concat_lines h p (Py.int_of_float (Py.truediv a v) + 1));
             Ran (FfmpegConcat c l); Ran (FfmpegTrim l a tr);
             Ran (FfmpegCombine tr audio out (quality_settings_get preset)
                    (String.eqb preset "maximum_quality"));
             Unlinked c; Unlinked l; Unlinked tr ] ++
           (if String.eqb p video then [] else [Unlinked p]) /\
         fs w' = (if String.eqb p video
                  then (fs w3 ∪ {[ c ]} ∪ {[ l ]} ∪ {[ tr ]} ∪ {[ out ]})
                         ∖ {[ c ]} ∖ {[ l ]} ∖ {[ tr ]}
                  else (fs w3 ∪ {[ c ]} ∪ {[ l ]} ∪ {[ tr ]} ∪ {[ out ]})
                         ∖ {[ c ]} ∖ {[ l ]} ∖ {[ tr ]} ∖ {[ p ]})).
  { intros (Hr & Ht & Hrest). split; [exact Hr |]. split; [exact Ht |].
    exists p, v, a, w1, w2, w3. auto. }
  clear H1 H2 H3 Hf2 Hf3 Hs.
  destruct (Qle_bool a v).
  - apply bind_inv in H as [(res & w4 & H4 & H) | (? & ? & ?)]; [| discriminate].
    apply combine_inv in H4 as [Ht4 [-> Hf4]].
    apply bind_inv in H as [([] & w5 & H5 & H) | (? & ? & ?)]; [| discriminate].
    rewrite (bind_ok time_time _ w5 (clock w5) w5 eq_refl) in H.
    inversion H; subst r t w5; clear H.
    split; [reflexivity |]. split; [reflexivity |].
    destruct (String.eqb_spec p video) as [Heq | Hne]; simpl in H5.
    + inversion H5; subst. auto.
    + rewrite <- Hf4.
      destruct Hp as [-> | (-> & _ & Hp)]; [congruence |].
      destruct (unlink_there s w4) as (u & U); [rewrite Hf4; set_solver |].
      unfold try_except in H5. rewrite U in H5. inversion H5; subst w'.
      apply unlink_ok in U as (_ & E & Et).
      rewrite Et, Ht4, <- app_assoc. auto.
  - apply bind_inv in H as [(loops & w4 & H4 & H) | (? & ? & ?)]; [| discriminate].
    assert (w4 = w3 /\ loops = Py.int_of_float (Py.truediv a v) + 1) as [-> ->].
    { unfold loops_needed in H4. cbv zeta in H4.
      destruct (Qeq_bool v 0); [discriminate |].
      destruct (Py.is_finite _); now inversion H4. }
    clear H4.
    apply bind_inv in H as [([] & w5 & H5 & H) | (? & ? & ?)]; [| discriminate].
    assert (Hw5 : fs w5 = fs w3 ∪ {[ c ]} /\
                  trace w5 = trace w3 ++
                    [Wrote c (concat_lines h p (Py.int_of_float (Py.truediv a v) + 1))])
      by (inversion H5; auto).
    destruct Hw5 as [Hf5 Ht5]. clear H5.
    apply bind_inv in H as [(cp1 & w6 & H6 & H) | (? & ? & ?)]; [| discriminate].
    apply subprocess_run_inv in H6 as [Ht6 Hf6].
    destruct (returncode cp1 =? 0); simpl in H; [| discriminate].
    apply bind_inv in H as [(cp2 & w7 & H7 & H) | (? & ? & ?)]; [| discriminate].
    apply subprocess_run_inv in H7 as [Ht7 Hf7].
    destruct (returncode cp2 =? 0); simpl in H; [| discriminate].
    apply bind_inv in H as [(res & w8 & H8 & H) | (? & ? & ?)]; [| discriminate].
    apply combine_inv in H8 as [Ht8 [-> Hf8]].
    apply bind_inv in H as [([] & w9 & H9 & H) | (? & ? & ?)]; [| discriminate].
    rewrite (bind_ok time_time _ w9 (clock w9) w9 eq_refl) in H.
    inversion H; subst r t w9; clear H.
    split; [reflexivity |]. split; [reflexivity |].
    simpl in Hf6, Hf7.
    assert (Hall : fs w8 = fs w3 ∪ {[ c ]} ∪ {[ l ]} ∪ {[ tr ]} ∪ {[ out ]})
      by (rewrite Hf8, Hf7, Hf6, Hf5; reflexivity).
    assert (Tall : trace w8 = trace w3 ++
              [ Wrote c (concat_lines h p (Py.int_of_float (Py.truediv a v) + 1));
                Ran (FfmpegConcat c l); Ran (FfmpegTrim l a tr);
                Ran (FfmpegCombine tr audio out (quality_settings_get preset)
                       (String.eqb preset "maximum_quality")) ])
      by (rewrite Ht8, Ht7, Ht6, Ht5, <- !app_assoc; reflexivity).
    clear Hf5 Hf6 Hf7 Hf8 Ht5 Ht6 Ht7 Ht8.
    destruct Hd as (Hcl & Hct & Hcs & Hlt & Hls & Hts).
    destruct (unlink_there c w8) as (u1 & U1); [rewrite Hall; set_solver |].
    pose proof (unlink_ok _ _ _ _ U1) as (_ & E1 & T1).
    destruct (unlink_there l u1) as (u2 & U2); [rewrite E1, Hall; set_solver |].
    pose proof (unlink_ok _ _ _ _ U2) as (_ & E2 & T2).
    destruct (unlink_there tr u2) as (u3 & U3); [rewrite E2, E1, Hall; set_solver |].
    pose proof (unlink_ok _ _ _ _ U3) as (_ & E3 & T3).
    unfold try_except in H9.
    rewrite (bind_ok _ _ _ _ _ U1), (bind_ok _ _ _ _ _ U2), (bind_ok _ _ _ _ _ U3) in H9.
    destruct (String.eqb_spec p video) as [Heq | Hne]; simpl in H9.
    + inversion H9; subst w'. rewrite T3, T2, T1, Tall, E3, E2, E1, Hall.
      rewrite <- !app_assoc. simpl. auto.
    + destruct Hp as [-> | (-> & _ & Hp)]; [congruence |].
      * destruct (unlink_there s u3) as (u4 & U4);
          [rewrite E3, E2, E1, Hall; set_solver |].
        rewrite U4 in H9. inversion H9; subst w'.
        apply unlink_ok in U4 as (_ & E4 & T4).
        rewrite T4, T3, T2, T1, Tall, E4, E3, E2, E1, Hall.
        rewrite <- !app_assoc. simpl. auto.
Qed.

End ProcessorFacts.

Section ProcessorProperties.
Import Sys video_processor Spec.
Variable h : Host.

(** X10. [check_gpu_available] never raises and asks ffmpeg once: it
    answers true exactly when the process ran to its end, whatever its
    exit code, and printed [h264_nvenc]; a timeout or a missing ffmpeg
    gives false. It creates no file. *)
Theorem check_gpu_available_ignores_the_exit_code (w : World) :
  exists w',
    check_gpu_available h w =
      (Ok match fst (spawn h FfmpegEncoders w) with
          | Exited cp => Py.contains "h264_nvenc" (stdout cp)
          | Expired | NotFound _ => false
          end, w') /\
    trace w' = trace w ++ [Ran FfmpegEncoders] /\
    fs w' = fs w.
Proof.
  unfold check_gpu_available, try_except, bind, subprocess_run.
  destruct (spawn h FfmpegEncoders w) as [[cp | | prog] dt]; simpl.
  - destruct (returncode cp =? 0); eexists; (split; [reflexivity |]); simpl;
      split; try reflexivity. apply union_empty_r_L.
  - eexists. split; [reflexivity |]. simpl. auto.
  - eexists. split; [reflexivity |]. simpl. auto.
Qed.

(** X11. A video that ffprobe reports as 1920x1080 is not encoded again:
    [scale_video_to_1080p] returns the path it was given and runs no
    command after the probe. Any other size, larger ones and portrait
    ones included, is sent through one scale command; the output path is
    returned only if that command exited with code 0, and then the file
    exists. *)
Theorem scale_leaves_1080p_videos_alone input output preset w wd ht w1 :
  get_video_resolution h input w = (Ok (wd, ht), w1) ->
  let run := scale_video_to_1080p h input output preset w in
  (wd = 1920 /\ ht = 1080 -> run = (Ok input, w1)) /\
  (wd <> 1920 \/ ht <> 1080 ->
   trace (snd run) = trace w1 ++
     [Ran (FfmpegScale input output (quality_settings_get preset)
             (String.eqb preset "maximum_quality"))] /\
   forall p, fst run = Ok p -> p = output /\ output ∈ fs (snd run)).
Proof.
  intros H run. unfold run, scale_video_to_1080p.
  rewrite (bind_ok _ _ _ _ _ H). split.
  - intros [-> ->]. reflexivity.
  - intros Hne.
    assert ((wd =? 1920) && (ht =? 1080) = false) as ->.
    { apply andb_false_iff.
      destruct Hne as [Hn | Hn]; [left | right]; now apply Z.eqb_neq. }
    match goal with |- context [subprocess_run h ?c ?t] =>
      destruct (subprocess_run h c t w1) as [[cp | e] w2] eqn:E;
      pose proof (subprocess_run_inv h _ _ _ _ _ E) as [Ht Hf]
    end.
    + rewrite (bind_ok _ _ _ _ _ E).
      destruct (returncode cp =? 0); simpl; (split; [exact Ht |]).
      * intros p Hp. inversion Hp; subst. split; [reflexivity |].
        rewrite Hf. simpl. set_solver.
      * intros p Hp. discriminate.
    + rewrite (bind_raise _ _ _ _ _ E). simpl. split; [exact Ht |].
      intros p Hp. discriminate.
Qed.

(** X12. When [loop_video_to_match_audio] returns, it returns the output
    path it was given and the time that passed between its first and its
    last reading of the clock; the output file exists then, provided its
    path is not that of one of the intermediate files, which are removed
    at the end. *)
Theorem matcher_returns_the_output_file video audio out preset w r t w' :
  loop_video_to_match_audio h video audio out preset w = (Ok (r, t), w') ->
  out ∉ temporaries video out ->
  r = out /\ (out ∈ fs w') /\ t = (clock w' - clock w)%Q.
Proof.
  intros H Hout.
  apply loop_ok_inv in H as (Hr & Ht & p & v & a & w1 & w2 & w3 & _ & _ & _ & Hp & H).
  cbv zeta in H. split; [exact Hr |]. split; [| exact Ht].
  unfold temporaries in Hout.
  rewrite !not_elem_of_cons in Hout. destruct Hout as (Hc & Hl & Htr & Hs & _).
  destruct (Qle_bool a v); destruct H as [_ ->];
    (destruct (String.eqb_spec p video) as [Heq | Hne];
     [| destruct Hp as [? | [-> _]]; [congruence |]]); set_solver.
Qed.


End ProcessorProperties.

(* ================================================================== *)
(** * More about the scheduler                                          *)
(* ================================================================== *)

Section SchedulerProperties.
Import Sys video_processor Spec.
Variable h : Host.

Lemma bind_ext {A B} (m : M A) (k k' : A -> M B) w :
  (forall a w1, k a w1 = k' a w1) -> bind m k w = bind m k' w.
Proof. intros Hk. unfold bind. destruct (m w) as [[a | e] w1]; auto. Qed.

(** X14. Without the hardware encoder neither scheduler starts anything:
    whatever the tasks, both raise the same [RuntimeError] right after the
    encoder query, the only command run; no file is touched. *)
Theorem without_the_encoder_nothing_is_started tasks mw preset w w1 :
  check_gpu_available h w = (Ok false, w1) ->
  process_videos_smart h tasks mw preset w = (Raise (RuntimeError gpu_missing), w1) /\
  process_videos_parallel h tasks mw preset w = (Raise (RuntimeError gpu_missing), w1) /\
  trace w1 = trace w ++ [Ran FfmpegEncoders] /\
  fs w1 = fs w.
Proof.
  intros Hg. destruct (check_gpu_returns h w) as (b & wg & Hg' & Ht & Hf).
  rewrite Hg in Hg'. inversion Hg'; subst b wg.
  unfold process_videos_smart, process_videos_parallel.
  rewrite !(bind_ok time_time _ w (clock w) w eq_refl), !(bind_ok _ _ _ _ _ Hg).
  auto.
Qed.

(** X15. The path taken depends on the number of tasks only. A summary
    is tagged [none] for no task, [single_gpu] for one task and
    [parallel_gpu] for more; a worker pool is created in the last case
    only, so that for a single task [max_workers] is never looked at. *)
Theorem mode_and_pool_follow_the_task_count tasks mw preset w s w' :
  process_videos_smart h tasks mw preset w = (Ok s, w') ->
  processing_mode s =
    Some match tasks with
         | [] => "none"
         | [_] => "single_gpu"
         | _ => "parallel_gpu"
         end%string /\
  pools (trace w') =
    pools (trace w) ++ match tasks with
                       | [] | [_] => []
                       | _ => [Z.min mw 6]
                       end.
Proof.
  intros H.
  destruct tasks as [| task [| task2 rest]].
  - unfold process_videos_smart in H.
    rewrite (bind_ok time_time _ w (clock w) w eq_refl) in H.
    destruct (check_gpu_returns h w) as (b & wg & Hg & Ht & _).
    rewrite (bind_ok _ _ _ _ _ Hg) in H.
    destruct b; simpl in H; [| discriminate]. inversion H; subst.
    split; [reflexivity |]. now rewrite Ht, pools_snoc_ran, app_nil_r.
  - unfold process_videos_smart in H.
    rewrite (bind_ok time_time _ w (clock w) w eq_refl) in H.
    destruct (check_gpu_returns h w) as (b & wg & Hg & Ht & _).
    rewrite (bind_ok _ _ _ _ _ Hg) in H.
    destruct b; simpl in H; [| discriminate].
    rewrite app_nil_r. rewrite <- (pools_snoc_ran (trace w) FfmpegEncoders), <- Ht.
    pose proof (loop_preserves h same_pools (pools_run h) pools_write pools_unlink)
      as Hloop.
    unfold try_except in H.
    match type of H with context [loop_video_to_match_audio ?a ?b ?c ?d ?e] =>
      destruct (loop_video_to_match_audio a b c d e wg) as [[[p pt] | e0] w1] eqn:E
    end; pose proof (Hloop _ _ _ _ _ _ _ E) as Hp.
    + rewrite (bind_ok _ _ _ _ _ E) in H. simpl in H.
      inversion H; subst. split; [reflexivity | exact Hp].
    + rewrite (bind_raise _ _ _ _ _ E) in H. simpl in H.
      inversion H; subst. split; [reflexivity | exact Hp].
  - split.
    + unfold process_videos_smart in H.
      rewrite (bind_ok time_time _ w (clock w) w eq_refl) in H.
      destruct (check_gpu_returns h w) as (b & wg & Hg & Ht & _).
      rewrite (bind_ok _ _ _ _ _ Hg) in H.
      destruct b; simpl in H; [| discriminate].
      apply bind_inv in H as [(s0 & w1 & _ & H2) | (? & ? & ?)]; [| discriminate].
      now inversion H2.
    + eapply smart_pool; [| exact H]. simpl. lia.
Qed.

(** X16. A request for no worker stops a batch before any task: with the
    encoder present and [max_workers <= 0], [process_videos_parallel]
    raises the [ValueError] of the pool, whatever the tasks, the empty list
    included, and so does [process_videos_smart] on two tasks or more; only
    the encoder was queried (twice by [process_videos_smart], which asks
    before handing over), and no pool was created. *)
Theorem no_worker_stops_the_batch tasks mw preset w :
  gpu_present h -> (mw <= 0) ->
  let no_worker := ValueError "max_workers must be greater than 0" in
  (exists w',
     process_videos_parallel h tasks mw preset w = (Raise no_worker, w') /\
     trace w' = trace w ++ [Ran FfmpegEncoders]) /\
  ((2 <= length tasks)%nat ->
   exists w',
     process_videos_smart h tasks mw preset w = (Raise no_worker, w') /\
     trace w' = trace w ++ [Ran FfmpegEncoders; Ran FfmpegEncoders]).
Proof.
  intros Hgpu Hmw no_worker.
  assert (Hpar : forall w0, exists w',
             process_videos_parallel h tasks mw preset w0 = (Raise no_worker, w') /\
             trace w' = trace w0 ++ [Ran FfmpegEncoders]).
  { intros w0. destruct (check_gpu_present h w0 Hgpu) as (wg & Hg).
    destruct (check_gpu_returns h w0) as (b & wg' & Hg' & Ht & _).
    rewrite Hg in Hg'. inversion Hg'; subst b wg'.
    exists wg. split; [| exact Ht].
    unfold process_videos_parallel.
    rewrite (bind_ok time_time _ w0 (clock w0) w0 eq_refl), (bind_ok _ _ _ _ _ Hg).
    simpl. unfold bind at 1, ThreadPoolExecutor.
    destruct (Z.leb_spec (Py.min_Z mw 6) 0) as [_ | Hpos]; [reflexivity |].
    rewrite min_Z_spec in Hpos. lia. }
  split; [apply Hpar |].
  intros Hlen. destruct tasks as [| task [| task2 rest]]; simpl in Hlen; try lia.
  destruct (check_gpu_present h w Hgpu) as (wg & Hg).
  destruct (check_gpu_returns h w) as (b & wg' & Hg' & Ht & _).
  rewrite Hg in Hg'. inversion Hg'; subst b wg'.
  destruct (Hpar wg) as (w' & Hp & Ht').
  exists w'. split.
  - unfold process_videos_smart.
    rewrite (bind_ok time_time _ w (clock w) w eq_refl), (bind_ok _ _ _ _ _ Hg).
    simpl. now rewrite (bind_raise _ _ _ _ _ Hp).
  - rewrite Ht', Ht, <- app_assoc. reflexivity.
Qed.

(** X17. The preset of the batch overrides the presets of the tasks: a
    [quality_preset] entry that a task brings along has no influence on
    what the scheduler does or returns. *)
Theorem batch_preset_overrides_task_presets
  (own : Task -> option string) tasks mw preset w :
  let with_own task :=
    {| task_video_path := task_video_path task;
       task_audio_path := task_audio_path task;
       task_output_path := task_output_path task;
       task_quality_preset := own task |} in
  process_videos_smart h (map with_own tasks) mw preset w
  = process_videos_smart h tasks mw preset w.
Proof.
  intros with_own.
  assert (Hpar : forall ts w0,
             process_videos_parallel h (map with_own ts) mw preset w0
             = process_videos_parallel h ts mw preset w0).
  { intros ts w0. unfold process_videos_parallel. now rewrite map_map. }
  destruct tasks as [| task [| task2 rest]]; try reflexivity.
  unfold process_videos_smart.
  apply bind_ext. intros start w1. apply bind_ext. intros gpu w2.
  destruct (negb gpu); [reflexivity |].
  change (map with_own (task :: task2 :: rest))
    with (with_own task :: with_own task2 :: map with_own rest).
  cbv iota.
  change (with_own task :: with_own task2 :: map with_own rest)
    with (map with_own (task :: task2 :: rest)).
  unfold bind. now rewrite Hpar.
Qed.

(** X18. The time a summary reports. For a single task it is the time
    on the clock from the call of [process_videos_smart] to its return, the
    encoder query included; for two tasks or more it is counted from the
    end of that query only, [process_videos_parallel] reading the clock
    anew; for no task it is 0. *)
Theorem batch_time_depends_on_the_path tasks mw preset w wg s w' :
  check_gpu_available h w = (Ok true, wg) ->
  process_videos_smart h tasks mw preset w = (Ok s, w') ->
  batch_total_time s =
    match tasks with
    | [] => 0%Q
    | [_] => (clock w' - clock w)%Q
    | _ => (clock w' - clock wg)%Q
    end.
Proof.
  intros Hg H. unfold process_videos_smart in H.
  rewrite (bind_ok time_time _ w (clock w) w eq_refl) in H.
  rewrite (bind_ok _ _ _ _ _ Hg) in H. simpl in H.
  destruct tasks as [| task [| task2 rest]].
  - now inversion H.
  - unfold try_except in H.
    match type of H with context [loop_video_to_match_audio ?a ?b ?c ?d ?e] =>
      destruct (loop_video_to_match_audio a b c d e wg) as [[[p pt] | e0] w1] eqn:E
    end.
    + rewrite (bind_ok _ _ _ _ _ E) in H. simpl in H. now inversion H.
    + rewrite (bind_raise _ _ _ _ _ E) in H. simpl in H. now inversion H.
  - apply bind_inv in H as [(s0 & w1 & H1 & H2) | (? & ? & ?)]; [| discriminate].
    inversion H2; subst; clear H2. simpl.
    destruct (parallel_run h (task :: task2 :: rest) mw preset wg)
      as (b & wg2 & _ & Hrun).
    destruct (b && _).
    + destruct Hrun as (fts & w2 & _ & _ & _ & Hrun).
      rewrite Hrun in H1. now inversion H1.
    + destruct Hrun as (e & w2 & Hrun & _). rewrite Hrun in H1. discriminate.
Qed.

End SchedulerProperties.

(* ================================================================== *)
(** * More about the overlay                                            *)
(* ================================================================== *)

Section OverlayProperties.
Import Sys video_overlay Spec.
Variable h : Host.

Lemma get_video_duration_inv p w r w' :
  get_video_duration h p w = (r, w') ->
  fs w' = fs w /\ trace w' = trace w ++ [Ran (FfprobeDuration p)] /\
  match r with Ok _ => True | Raise e => has_message e end.
Proof.
  unfold get_video_duration. intros H.
  apply bind_inv in H as [(cp & w1 & H1 & H2) | (e & H1 & ->)].
  - apply probe_inv in H1 as [Hf Ht]; [| reflexivity].
    destruct (negb _); [| destruct (float_of_string _ _)]; inversion H2; subst;
      repeat split; auto; discriminate.
  - pose proof (message_run h _ _ _ _ _ H1) as Hm.
    apply probe_inv in H1 as [Hf Ht]; [| reflexivity]. auto.
Qed.

(** X19. Only the end of the overlay window is clamped, not its start.
    Outside the [full_duration] mode, a start that lies beyond the end of
    the primary video is passed on as it is: the window handed to ffmpeg
    ends before it starts, and the encode is run all the same. *)
Theorem overlay_start_is_not_clamped main_path overlay_path out o w main ov w1 w2 :
  get_video_duration h main_path w = (Ok main, w1) ->
  get_video_duration h overlay_path w1 = (Ok ov, w2) ->
  timing_mode o <> "full_duration"%string ->
  (main < start_time o)%Q ->
  exists args,
    trace (snd (apply_video_overlay_smart h main_path overlay_path out o w)) =
      trace w2 ++ [Ran (FfmpegOverlay args)] /\
    ov_start args = start_time o /\
    (ov_end args <= main)%Q /\
    (ov_end args < ov_start args)%Q.
Proof.
  intros H1 H2 Hmode Hlate. unfold apply_video_overlay_smart.
  rewrite (bind_ok _ _ _ _ _ H1), (bind_ok _ _ _ _ _ H2).
  destruct (overlay_window _ _ _ main ov) as [actual_start actual_end] eqn:Ew.
  unfold _apply_overlay_full_encode.
  eexists. split.
  { match goal with |- context [subprocess_run h ?c ?t] =>
      destruct (subprocess_run h c t w2) as [[cp | e] w3] eqn:E;
      pose proof (subprocess_run_inv h _ _ _ _ _ E) as [Ht _]
    end.
    - rewrite (bind_ok _ _ _ _ _ E). destruct (negb _); exact Ht.
    - rewrite (bind_raise _ _ _ _ _ E). exact Ht. }
  simpl. unfold overlay_window in Ew.
  destruct (String.eqb_spec (timing_mode o) "full_duration") as [E | _];
    [contradiction |].
  assert (Hs : actual_start = start_time o /\ (actual_end <= main)%Q).
  { destruct (String.eqb _ _); inversion Ew; subst; split; auto; apply min_Q_le_r. }
  destruct Hs as [-> Hend]. split; [reflexivity |]. split; [exact Hend |].
  eapply Qle_lt_trans; eassumption.
Qed.

(** X20. [apply_video_overlay_smart] returns the output path it was
    given, and only after the two probes and one overlay command that
    exited with code 0, so that the file exists; these three commands are
    all it ran. When it raises, the exception carries a message. *)
Theorem overlay_returns_the_output_file main_path overlay_path out o w r w' :
  apply_video_overlay_smart h main_path overlay_path out o w = (r, w') ->
  match r with
  | Ok p =>
      p = out /\ (out ∈ fs w') /\
      exists args,
        ov_output args = out /\
        trace w' = trace w ++ [ Ran (FfprobeDuration main_path);
                                Ran (FfprobeDuration overlay_path);
                                Ran (FfmpegOverlay args) ]
  | Raise e => has_message e
  end.
Proof.
  unfold apply_video_overlay_smart. intros H.
  apply bind_inv in H as [(main & w1 & H1 & H) | (e & H1 & ->)].
  2:{ now apply get_video_duration_inv in H1 as (_ & _ & Hm). }
  apply get_video_duration_inv in H1 as (_ & Ht1 & _).
  apply bind_inv in H as [(ov & w2 & H2 & H) | (e & H2 & ->)].
  2:{ now apply get_video_duration_inv in H2 as (_ & _ & Hm). }
  apply get_video_duration_inv in H2 as (_ & Ht2 & _).
  destruct (overlay_window _ _ _ main ov) as [actual_start actual_end].
  unfold _apply_overlay_full_encode in H.
  apply bind_inv in H as [(cp & w3 & H3 & H) | (e & H3 & ->)].
  2:{ exact (message_run h _ _ _ _ _ H3). }
  apply subprocess_run_inv in H3 as [Ht3 Hf3].
  destruct (returncode cp =? 0); simpl in H; inversion H; subst; clear H.
  - split; [reflexivity |]. split; [rewrite Hf3; simpl; set_solver |].
    eexists. split; [| rewrite Ht3, Ht2, Ht1, <- !app_assoc; reflexivity].
    reflexivity.
  - discriminate.
Qed.

End OverlayProperties.

(* ================================================================== *)
(** * The colours of the subtitles                                      *)
(* ================================================================== *)

Section ColourProperties.
Import vidprocessor Colours.

Lemma bytes_ok : forallb byte_ok bytes = true.
Proof. vm_compute. reflexivity. Qed.

Lemma byte_facts (upper : bool) (n : Z) :
  0 <= n < 256 ->
  int_base16 (two_hex upper n) = Some n /\
  format_02X n = two_hex true n /\
  Ascii.eqb (hex_digit upper (n / 16)) "#" = false.
Proof.
  intros Hn. pose proof bytes_ok as H. rewrite forallb_forall in H.
  assert (Hin : In n bytes).
  { unfold bytes. rewrite <- (Z2Nat.id n) by lia. apply in_map, in_seq. lia. }
  apply H in Hin. unfold byte_ok in Hin.
  rewrite !andb_true_iff, !negb_true_iff, !bool_decide_eq_true in Hin.
  destruct Hin as ((((Hu & Hl) & Hf) & Hhu) & Hhl).
  destruct upper; auto.
Qed.

(** A colour of six digits, read by the three slices. *)
Lemma six_digits (a1 a2 b1 b2 c1 c2 : ascii) :
  Ascii.eqb a1 "#" = false ->
  let s := String "#" (String a1 (String a2 (String b1 (String b2
             (String c1 (String c2 EmptyString)))))) in
  slice (lstrip_hash s) 0 2 = String a1 (String a2 EmptyString) /\
  slice (lstrip_hash s) 2 4 = String b1 (String b2 EmptyString) /\
  slice (lstrip_hash s) 4 6 = String c1 (String c2 EmptyString).
Proof.
  intros H s. unfold s.
  assert (E : forall rest, lstrip_hash (String "#" (String a1 rest)) = String a1 rest).
  { intros rest. change (lstrip_hash (String "#" (String a1 rest)))
      with (if Ascii.eqb a1 "#" then lstrip_hash rest else String a1 rest).
    now rewrite H. }
  rewrite E. repeat split.
Qed.

Lemma colour_read (ur ug ub : bool) (r g b : Z) :
  0 <= r < 256 -> 0 <= g < 256 -> 0 <= b < 256 ->
  let s := ("#" ++ two_hex ur r ++ two_hex ug g ++ two_hex ub b)%string in
  int_base16 (slice (lstrip_hash s) 0 2) = Some r /\
  int_base16 (slice (lstrip_hash s) 2 4) = Some g /\
  int_base16 (slice (lstrip_hash s) 4 6) = Some b.
Proof.
  intros Hr Hg Hb s.
  destruct (byte_facts ur r Hr) as (Er & _ & Hh).
  destruct (byte_facts ug g Hg) as (Eg & _ & _).
  destruct (byte_facts ub b Hb) as (Eb & _ & _).
  unfold s, two_hex in *. rewrite !append_cons_l, !append_nil_l.
  destruct (six_digits (hex_digit ur (r / 16)) (hex_digit ur (r mod 16))
              (hex_digit ug (g / 16)) (hex_digit ug (g mod 16))
              (hex_digit ub (b / 16)) (hex_digit ub (b mod 16)) Hh) as (-> & -> & ->).
  auto.
Qed.

(** X21. [hex_to_ass] turns [#RRGGBB], its digits in either case, into
    the ASS colour [&H00BBGGRR]: red and blue change places and the digits
    come out in upper case. *)
Theorem hex_to_ass_swaps_red_and_blue (ur ug ub : bool) (r g b : Z) :
  0 <= r < 256 -> 0 <= g < 256 -> 0 <= b < 256 ->
  hex_to_ass ("#" ++ two_hex ur r ++ two_hex ug g ++ two_hex ub b)
  = Some ("&H00" ++ two_hex true b ++ two_hex true g ++ two_hex true r)%string.
Proof.
  intros Hr Hg Hb.
  destruct (colour_read ur ug ub r g b Hr Hg Hb) as (Er & Eg & Eb).
  unfold hex_to_ass. cbv zeta in *. rewrite Er, Eg, Eb.
  destruct (byte_facts true r Hr) as (_ & -> & _).
  destruct (byte_facts true g Hg) as (_ & -> & _).
  destruct (byte_facts true b Hb) as (_ & -> & _).
  reflexivity.
Qed.

Lemma hex_to_ass_swaps_red_and_blue_witness :
  hex_to_ass "#ff8000" = Some "&H000080FF"%string.
Proof.
  apply (hex_to_ass_swaps_red_and_blue false false false 255 128 0); lia.
Defined.

(** X22. [hex_to_ass_alpha] puts the inverted opacity in front: an
    opacity of 255 gives the alpha byte [00], an opacity of 0 gives [FF];
    the colour follows as in [hex_to_ass]. *)
Theorem hex_to_ass_alpha_inverts_the_opacity (ur ug ub : bool) (r g b alpha : Z) :
  0 <= r < 256 -> 0 <= g < 256 -> 0 <= b < 256 -> 0 <= alpha <= 255 ->
  hex_to_ass_alpha ("#" ++ two_hex ur r ++ two_hex ug g ++ two_hex ub b) alpha
  = Some ("&H" ++ two_hex true (255 - alpha)
            ++ two_hex true b ++ two_hex true g ++ two_hex true r)%string.
Proof.
  intros Hr Hg Hb Ha.
  destruct (colour_read ur ug ub r g b Hr Hg Hb) as (Er & Eg & Eb).
  unfold hex_to_ass_alpha. cbv zeta in *. rewrite Er, Eg, Eb.
  destruct (byte_facts true r Hr) as (_ & -> & _).
  destruct (byte_facts true g Hg) as (_ & -> & _).
  destruct (byte_facts true b Hb) as (_ & -> & _).
  destruct (byte_facts true (255 - alpha)) as (_ & -> & _); [lia |].
  reflexivity.
Qed.

Lemma hex_to_ass_alpha_inverts_the_opacity_witness :
  hex_to_ass_alpha "#000000" 128 = Some "&H7F000000"%string.
Proof.
  apply (hex_to_ass_alpha_inverts_the_opacity true true true 0 0 0 128); lia.
Defined.

Lemma substring_short (s : string) (i n : nat) :
  (String.length s <= i)%nat -> String.substring i n s = EmptyString.
Proof.
  revert i n. induction s as [| c s IH]; intros i n Hl.
  - destruct i, n; reflexivity.
  - destruct i as [| i]; simpl in Hl; [lia |]. simpl. apply IH. lia.
Qed.

(** X23. A colour with fewer than five characters after the leading
    hashes, the short form [#RGB] for one, is refused: the third slice is
    empty and [int] raises [ValueError]. *)
Theorem short_colours_are_refused (hex_color : string) (alpha : Z) :
  (String.length (lstrip_hash hex_color) <= 4)%nat ->
  hex_to_ass hex_color = None /\ hex_to_ass_alpha hex_color alpha = None.
Proof.
  intros Hl. unfold hex_to_ass, hex_to_ass_alpha. cbv zeta.
  assert (E : slice (lstrip_hash hex_color) 4 6 = EmptyString)
    by (apply substring_short; exact Hl).
  rewrite E. change (int_base16 EmptyString) with (@None Z).
  destruct (int_base16 _); [destruct (int_base16 _) |]; auto.
Qed.

Lemma short_colours_are_refused_witness :
  hex_to_ass "#fff" = None /\ hex_to_ass_alpha "#fff" 128 = None.
Proof. apply (short_colours_are_refused "#fff" 128). simpl. lia. Defined.

End ColourProperties.

(* ================================================================== *)
(** * More examples                                                     *)
(* ================================================================== *)

Section MoreExamples.
Import Sys video_processor Spec Scenarios MoreScenarios.

(** A 720p video is scaled. *)
Lemma scale_leaves_1080p_videos_alone_witness :
  let run := scale_video_to_1080p workstation "/in/small.mp4" "/out/s.mp4"
               "high_quality" empty_world in
  fst run = Ok "/out/s.mp4"%string /\ ("/out/s.mp4"%string ∈ fs (snd run)).
Proof.
  intros run.
  assert (R : fst run = Ok "/out/s.mp4"%string) by (vm_compute; reflexivity).
  split; [exact R |].
  destruct (get_video_resolution workstation "/in/small.mp4" empty_world)
    as [[[wd ht] | e] w1] eqn:E.
  - assert (Hwd : wd = 1280) by (vm_compute in E; now inversion E).
    destruct (scale_leaves_1080p_videos_alone workstation "/in/small.mp4"
                "/out/s.mp4" "high_quality" empty_world wd ht w1 E) as [_ H].
    destruct H as [_ H]; [left; lia |].
    exact (proj2 (H _ R)).
  - exfalso. vm_compute in E. discriminate.
Defined.

(** A 720p video under a longer audio: the output is there. *)
Lemma matcher_returns_the_output_file_witness :
  let run := loop_video_to_match_audio workstation "/in/small.mp4" "/in/a25.mp3"
               "/out/o.mp4" "high_quality" empty_world in
  exists t, fst run = Ok ("/out/o.mp4"%string, t) /\ ("/out/o.mp4"%string ∈ fs (snd run)).
Proof.
  intros run. destruct run as [[[r t] | e] w'] eqn:E.
  - destruct (matcher_returns_the_output_file workstation "/in/small.mp4"
                "/in/a25.mp3" "/out/o.mp4" "high_quality" empty_world r t w' E)
      as (-> & Hin & _).
    + intros Hin. vm_compute in Hin.
      repeat (apply elem_of_cons in Hin as [Hin | Hin]; [discriminate |]).
      now apply elem_of_nil in Hin.
    + exists t. split; [reflexivity | exact Hin].
  - exfalso. vm_compute in E. discriminate.
Defined.


(** Three tasks on the machine without the encoder: nothing but the
    query. *)
Lemma without_the_encoder_nothing_is_started_witness :
  exists w1,
    process_videos_smart no_encoder three_tasks 4 "high_quality" empty_world
      = (Raise (RuntimeError gpu_missing), w1) /\
    trace w1 = [Ran FfmpegEncoders].
Proof.
  destruct (check_gpu_available no_encoder empty_world) as [[[|] | e] w1] eqn:E.
  - exfalso. vm_compute in E. discriminate.
  - destruct (without_the_encoder_nothing_is_started no_encoder three_tasks 4
                "high_quality" empty_world w1 E) as (H & _ & Ht & _).
    exists w1. split; [exact H | exact Ht].
  - exfalso. vm_compute in E. discriminate.
Defined.

(** One task, no worker asked for: the single path, no pool. *)
Lemma mode_and_pool_follow_the_task_count_witness :
  let run := process_videos_smart workstation one_task 0 "high_quality" empty_world in
  exists s, fst run = Ok s /\
    processing_mode s = Some "single_gpu"%string /\ pools (trace (snd run)) = [].
Proof.
  intros run. destruct run as [[s | e] w'] eqn:E.
  - destruct (mode_and_pool_follow_the_task_count workstation one_task 0
                "high_quality" empty_world s w' E) as (Hm & Hp).
    exists s. split; [reflexivity |]. split; [exact Hm | exact Hp].
  - exfalso. vm_compute in E. discriminate.
Defined.

(** Three tasks and no worker. *)
Lemma no_worker_stops_the_batch_witness :
  exists w',
    process_videos_smart workstation three_tasks 0 "high_quality" empty_world
      = (Raise (ValueError "max_workers must be greater than 0"), w') /\
    trace w' = [Ran FfmpegEncoders; Ran FfmpegEncoders].
Proof.
  destruct (no_worker_stops_the_batch workstation three_tasks 0 "high_quality"
              empty_world workstation_has_gpu) as [_ H]; [lia |].
  apply H. simpl. lia.
Defined.

(** Three tasks: the encoder query of one second is not counted. *)
Lemma batch_time_depends_on_the_path_witness :
  let run := process_videos_smart workstation three_tasks 4 "high_quality"
               empty_world in
  exists s, fst run = Ok s /\ batch_total_time s = (clock (snd run) - 1)%Q.
Proof.
  intros run. destruct run as [[s | e] w'] eqn:E.
  - destruct (check_gpu_available workstation empty_world) as [[[|] | e] wg] eqn:G.
    + exists s. split; [reflexivity |].
      rewrite (batch_time_depends_on_the_path workstation three_tasks 4
                 "high_quality" empty_world wg s w' G E).
      simpl. f_equal. vm_compute in G. now inversion G.
    + exfalso. vm_compute in G. discriminate.
    + exfalso. vm_compute in G. discriminate.
  - exfalso. vm_compute in E. discriminate.
Defined.

(** A primary video of 60 seconds, an overlay asked to start at 70. *)
Lemma overlay_start_is_not_clamped_witness :
  exists args before,
    trace (snd (video_overlay.apply_video_overlay_smart workstation "/in/main.mp4"
                  "/in/green.mp4" "/out/ov.mp4" from_70 empty_world)) =
      before ++ [Ran (FfmpegOverlay args)] /\
    (ov_end args < ov_start args)%Q.
Proof.
  edestruct (overlay_start_is_not_clamped workstation "/in/main.mp4" "/in/green.mp4"
               "/out/ov.mp4" from_70 empty_world) as (args & Ht & _ & _ & Hlt).
  - vm_compute. reflexivity.
  - vm_compute. reflexivity.
  - discriminate.
  - reflexivity.
  - exists args. eexists. split; [exact Ht | exact Hlt].
Defined.

Lemma overlay_returns_the_output_file_witness :
  let run := video_overlay.apply_video_overlay_smart workstation "/in/main.mp4"
               "/in/green.mp4" "/out/ov.mp4" until_90 empty_world in
  fst run = Ok "/out/ov.mp4"%string /\ ("/out/ov.mp4"%string ∈ fs (snd run)).
Proof.
  intros run. destruct run as [[p | e] w'] eqn:E.
  - apply overlay_returns_the_output_file in E as (-> & Hin & _).
    split; [reflexivity | exact Hin].
  - exfalso. vm_compute in E. discriminate.
Defined.

End MoreExamples.
